(** * Synthetic monitoring engine of moltworker: state machine, probe runner,
      alert routing and the orchestrator loop.

    Shallow embedding of
      - src/monitoring/types.ts   (data model)
      - src/monitoring/state.ts   (createEmptyState, createEmptyCheckState, loadState, saveState)
      - src/monitoring/alerts.ts  (computeTransition, shouldChannelReceive, dispatchAlerts)
      - src/monitoring/alerts/{slack,telegram,email}.ts (the three senders)
      - src/monitoring/runner.ts  (runCheck)
      - src/monitoring/index.ts   (runMonitoringChecks)
      - src/monitoring/checks.ts  (monitoringConfig, resolveCheckUrl)
      - src/routes/public.ts      (GET /api/monitoring/status)
      - src/monitor.ts            (the resolveUrl callback)
      - src/client/pages/MonitoringPage.tsx (padHistory)

    Conventions.
      - A JavaScript [number] that holds a count, a duration in ms or an HTTP
        status is a [Z]; the embedding covers the integers that a double
        represents exactly (|n| < 2^53), on which [+], [-], [>=] and [===]
        agree with the ones on [Z].
      - [T | null] and an optional field [f?: T] are [option T].
      - [Record<string, CheckState>] is a [gmap string CheckState.t].
      - Reading the clock, calling [fetch], writing to the console and using
        the R2 bucket are effects on an explicit [World]. *)

From Stdlib Require Import ZArith List Bool Lia Ascii String.
From Stdlib Require Import DecimalString.
From stdpp Require Import base decidable option list strings gmap.
Import ListNotations.

Local Open Scope string_scope.

(** ** types.ts *)

Inductive CheckType := api | browser.

Inductive CheckStatus := unknown | healthy | degraded | unhealthy.

#[global] Instance CheckStatus_eq_dec : EqDecision CheckStatus.
Proof. solve_decision. Defined.

Inductive AlertChannelType := slack | telegram | email.

Inductive AlertType := failure | recovery.

#[global] Instance AlertType_eq_dec : EqDecision AlertType.
Proof. solve_decision. Defined.

Module CheckConfig.
Record t := mk {
  id : string;
  name : string;
  type : CheckType;
  url : string;
  expectedStatus : option Z;
  timeoutMs : option Z;
  failureThreshold : option Z;
  tags : option (list string);
}.
End CheckConfig.

Module AlertChannel.
Record t := mk {
  type : AlertChannelType;
  enabled : bool;
  tags : option (list string);
}.
End AlertChannel.

Module MonitoringConfig.
Record t := mk {
  checks : list CheckConfig.t;
  channels : list AlertChannel.t;
  defaultFailureThreshold : Z;
  defaultTimeoutMs : Z;
}.
End MonitoringConfig.

Module HistoryEntry.
Record t := mk {
  timestamp : string;
  status : CheckStatus;
  responseTimeMs : Z;
  error : option string;
}.
End HistoryEntry.

(** [history] is declared [HistoryEntry[]], but a state persisted before the
    field existed has none, and [computeTransition] reads it with [?? []]:
    the field is an [option]. *)
Module CheckState.
Record t := mk {
  id : string;
  status : CheckStatus;
  consecutiveFailures : Z;
  lastCheck : option string;
  lastSuccess : option string;
  lastError : option string;
  responseTimeMs : option Z;
  history : option (list HistoryEntry.t);
}.
End CheckState.

Module MonitoringState.
Record t := mk {
  checks : gmap string CheckState.t;
  lastRun : option string;
}.
End MonitoringState.

Module CheckResult.
Record t := mk {
  id : string;
  success : bool;
  statusCode : option Z;
  responseTimeMs : Z;
  error : option string;
}.
End CheckResult.

Module AlertPayload.
Record t := mk {
  type : AlertType;
  check : CheckConfig.t;
  checkState : CheckState.t;
  result : CheckResult.t;
  timestamp : string;
}.
End AlertPayload.

(** ** JavaScript helpers *)

(** [a ?? b] *)
Definition nullish {A} (a : option A) (b : A) : A :=
  match a with Some x => x | None => b end.
Infix "??" := nullish (at level 45, left associativity).

(** [`${n}`] for an integer [n]. *)
Definition show (n : Z) : string := NilZero.string_of_int (Z.to_int n).

(** [hay.includes(needle)] on strings. *)
Fixpoint includes (needle hay : string) : bool :=
  String.prefix needle hay ||
  match hay with
  | EmptyString => false
  | String _ rest => includes needle rest
  end.

(** [arr.includes(x)] on an array of strings. *)
Definition arr_includes (x : string) (arr : list string) : bool :=
  existsb (String.eqb x) arr.

(** [arr.slice(-n)]: the last [n] elements, the whole array when it has
    fewer. *)
Definition slice_last {A} (n : nat) (arr : list A) : list A :=
  drop (length arr - n) arr.

(** ** state.ts *)

Definition createEmptyState : MonitoringState.t :=
  MonitoringState.mk ∅ None.

Definition createEmptyCheckState (id : string) : CheckState.t :=
  {| CheckState.id := id;
     CheckState.status := unknown;
     CheckState.consecutiveFailures := 0;
     CheckState.lastCheck := None;
     CheckState.lastSuccess := None;
     CheckState.lastError := None;
     CheckState.responseTimeMs := None;
     CheckState.history := Some [] |}.

(** ** alerts.ts: the state machine *)

Module Transition.
Record t := mk {
  newState : CheckState.t;
  alertType : option AlertType;
}.
End Transition.

(** [now] is the value of [new Date().toISOString()] read on entry. *)
Definition computeTransition (now : string)
    (state : CheckState.t) (result : CheckResult.t) (threshold : Z)
    : Transition.t :=
  let updated_history := Some (CheckState.history state ?? []) in
  let updated_lastCheck := Some now in
  let updated_responseTimeMs := Some (CheckResult.responseTimeMs result) in
  if CheckResult.success result then
    let wasUnhealthy := bool_decide (CheckState.status state = unhealthy) in
    {| Transition.newState :=
         {| CheckState.id := CheckState.id state;
            CheckState.status := healthy;
            CheckState.consecutiveFailures := 0;
            CheckState.lastCheck := updated_lastCheck;
            CheckState.lastSuccess := Some now;
            CheckState.lastError := CheckState.lastError state;
            CheckState.responseTimeMs := updated_responseTimeMs;
            CheckState.history := updated_history |};
       Transition.alertType := if wasUnhealthy then Some recovery else None |}
  else
    let failures := (CheckState.consecutiveFailures state + 1)%Z in
    let failed (st : CheckStatus) :=
      {| CheckState.id := CheckState.id state;
         CheckState.status := st;
         CheckState.consecutiveFailures := failures;
         CheckState.lastCheck := updated_lastCheck;
         CheckState.lastSuccess := CheckState.lastSuccess state;
         CheckState.lastError := CheckResult.error result;
         CheckState.responseTimeMs := updated_responseTimeMs;
         CheckState.history := updated_history |} in
    if (failures >=? threshold)%Z then
      let wasAlreadyUnhealthy :=
        bool_decide (CheckState.status state = unhealthy) in
      {| Transition.newState := failed unhealthy;
         Transition.alertType :=
           if wasAlreadyUnhealthy then None else Some failure |}
    else
      {| Transition.newState := failed degraded;
         Transition.alertType := None |}.

(** ** alerts.ts: tag routing *)

Definition shouldChannelReceive (channel : AlertChannel.t)
    (check : CheckConfig.t) : bool :=
  if negb (AlertChannel.enabled channel) then false
  else
    match AlertChannel.tags channel with
    | None => true
    | Some [] => true
    | Some channel_tags =>
        match CheckConfig.tags check with
        | None => false
        | Some [] => false
        | Some check_tags =>
            existsb (fun tag => arr_includes tag check_tags) channel_tags
        end
    end.

(** ** The world

    What the run observes of its environment is scripted by oracles: [net k]
    is how the [k]-th call of [fetch] settles and [clock k] is what the
    [k]-th read of the clock returns.  What the run does to its environment
    is recorded: the requests issued, the console lines, the puts on the
    bucket. *)

(** A thrown value: an [Error] instance with its [message], or anything
    else. *)
Inductive Thrown :=
| ErrorObj (message : string)
| NonError (value : string).

(** How a [fetch] settles.  [Aborted m]: the [AbortController] of the call
    fired before the transport settled, and the runtime rejects with its
    abort error, an [Error] instance of message [m]. *)
Inductive FetchOutcome :=
| Responded (status : Z) (body : string)
| Aborted (message : string)
| Failed (e : Thrown).

(** A request records who issued it and with which arguments; neither the
    placeholder substitution of [resolveCheckUrl] nor the rendering of the
    payload into the channel's wire format is modelled. *)
Inductive Request :=
| ProbeGET (url : string) (workerUrl : option string) (timeoutMs : Z)
| SlackPOST (webhookUrl : string) (alert : AlertPayload.t)
| TelegramPOST (botToken chatId : string) (alert : AlertPayload.t)
| EmailPOST (apiKey from to : string) (alert : AlertPayload.t).

Module Instant.
Record t := mk {
  epoch_ms : Z;          (* Date.now() *)
  iso : string;          (* new Date().toISOString() *)
}.
End Instant.

Inductive LogLevel := log | warn | error.

Module LogLine.
Record t := mk {
  level : LogLevel;
  text : string;
  arg : option Thrown;
}.
End LogLine.

(** [bucket.get(STATE_KEY)] followed by [JSON.parse]: no object, an object
    that parses to a state, or an exception on the way. *)
Inductive R2Get :=
| R2Missing
| R2Stored (state : MonitoringState.t)
| R2GetThrows (e : Thrown).

Module World.
Record t := mk {
  net : nat -> FetchOutcome;
  requests : list Request;
  clock : nat -> Instant.t;
  clock_reads : nat;
  console : list LogLine.t;
  r2_get : R2Get;
  r2_put_throws : option Thrown;
  r2_puts : list MonitoringState.t;
}.

(** One more read of the clock. *)
Definition tick (w : t) : t :=
  mk (net w) (requests w) (clock w) (S (clock_reads w)) (console w)
     (r2_get w) (r2_put_throws w) (r2_puts w).

(** One more request issued. *)
Definition issue (req : Request) (w : t) : t :=
  mk (net w) (app (requests w) [req]) (clock w) (clock_reads w) (console w)
     (r2_get w) (r2_put_throws w) (r2_puts w).

(** One more line on the console. *)
Definition print (l : LogLine.t) (w : t) : t :=
  mk (net w) (requests w) (clock w) (clock_reads w) (app (console w) [l])
     (r2_get w) (r2_put_throws w) (r2_puts w).

End World.

(** The bindings of [MoltbotEnv] the monitoring code reads. *)
Module MoltbotEnv.
Record t := mk {
  MOLTBOT_BUCKET : bool;
  WORKER_URL : option string;
  SLACK_WEBHOOK_URL : option string;
  TELEGRAM_BOT_TOKEN : option string;
  MONITORING_TELEGRAM_CHAT_ID : option string;
  RESEND_API_KEY : option string;
  RESEND_FROM_EMAIL : option string;
  MONITORING_EMAIL_TO : option string;
}.
End MoltbotEnv.

(** ** A state-and-exception monad for the effectful code *)

Inductive Result (A : Type) :=
| Ok (a : A)
| Throw (e : Thrown).
Arguments Ok {A} a.
Arguments Throw {A} e.

Definition M (A : Type) : Type := World.t -> Result A * World.t.

Definition ret {A} (a : A) : M A := fun w => (Ok a, w).

Definition throw {A} (e : Thrown) : M A := fun w => (Throw e, w).

Definition bind {A B} (m : M A) (k : A -> M B) : M B :=
  fun w =>
    match m w with
    | (Ok a, w') => k a w'
    | (Throw e, w') => (Throw e, w')
    end.

(** [try { body } catch (err) { handler }] *)
Definition try_catch {A} (body : M A) (handler : Thrown -> M A) : M A :=
  fun w =>
    match body w with
    | (Ok a, w') => (Ok a, w')
    | (Throw e, w') => handler e w'
    end.

Notation "'let*' x ':=' m 'in' k" := (bind m (fun x => k))
  (at level 10, x name, m at level 100, k at level 200).
Notation "m ';;' k" := (bind m (fun _ => k))
  (at level 100, k at level 200, right associativity).

(** [for (const x of xs) { acc = body(acc, x) }] *)
Fixpoint for_of {A S} (body : S -> A -> M S) (xs : list A) (acc : S) : M S :=
  match xs with
  | [] => ret acc
  | x :: rest => let* acc' := body acc x in for_of body rest acc'
  end.

(** ** Primitive effects *)

Definition read_clock : M Instant.t := fun w =>
  (Ok (World.clock w (World.clock_reads w)), World.tick w).

Definition Date_now : M Z :=
  let* t := read_clock in ret (Instant.epoch_ms t).

Definition Date_toISOString : M string :=
  let* t := read_clock in ret (Instant.iso t).

Definition console_write (l : LogLine.t) : M unit := fun w =>
  (Ok tt, World.print l w).

Definition console_log (text : string) : M unit :=
  console_write (LogLine.mk log text None).
Definition console_warn (text : string) : M unit :=
  console_write (LogLine.mk warn text None).
Definition console_error (text : string) (err : Thrown) : M unit :=
  console_write (LogLine.mk error text (Some err)).

Module Response.
Record t := mk { status : Z; body : string }.
(** [response.ok] *)
Definition ok (r : t) : bool := (200 <=? status r)%Z && (status r <=? 299)%Z.
End Response.

(** Issuing a [fetch]: the request is recorded and the oracle tells how this
    call will settle. *)
Definition fetch_issue (req : Request) : M FetchOutcome := fun w =>
  (Ok (World.net w (length (World.requests w))), World.issue req w).

(** The settlement of a [fetch] promise: a response, or a rejection. *)
Definition settle (o : FetchOutcome) : M Response.t :=
  match o with
  | Responded status body => ret (Response.mk status body)
  | Aborted message => throw (ErrorObj message)
  | Failed e => throw e
  end.

(** [await fetch(...)] *)
Definition fetch (req : Request) : M Response.t :=
  let* o := fetch_issue req in settle o.

(** A promise is the rest of the computation of its async function, from its
    first suspension on; [await p] runs it.  The async functions below
    suspend once, on the [fetch] they issue. *)
Definition Promise (A : Type) : Type := M A.

(** [p.catch(handler)] *)
Definition promise_catch {A} (p : Promise A) (handler : Thrown -> M A)
    : Promise A :=
  try_catch p handler.

(** [Promise.all(ps)], its array of values dropped.  Every promise runs to
    its settlement whatever the others do; the result is rejected when one
    of them is.  The settlements are taken in the order of [ps], one of the
    schedules the runtime may choose. *)
Fixpoint Promise_all (ps : list (Promise unit)) : Promise unit :=
  match ps with
  | [] => ret tt
  | p :: rest => fun w =>
      match p w with
      | (Ok _, w') => Promise_all rest w'
      | (Throw e, w') => (Throw e, snd (Promise_all rest w'))
      end
  end.

(** JavaScript truthiness of an optional string binding. *)
Definition truthy (o : option string) : option string :=
  match o with
  | Some EmptyString => None
  | Some s => Some s
  | None => None
  end.

(** ** runner.ts *)

Definition runCheck (check : CheckConfig.t) (workerUrl : option string)
    (timeoutMs : Z) : M CheckResult.t :=
  let* start := Date_now in
  try_catch
    (let* response :=
       fetch (ProbeGET (CheckConfig.url check) workerUrl timeoutMs) in
     let* finish := Date_now in
     let responseTimeMs := (finish - start)%Z in
     let expectedStatus := CheckConfig.expectedStatus check ?? 200%Z in
     let success := (Response.status response =? expectedStatus)%Z in
     ret {| CheckResult.id := CheckConfig.id check;
            CheckResult.success := success;
            CheckResult.statusCode := Some (Response.status response);
            CheckResult.responseTimeMs := responseTimeMs;
            CheckResult.error :=
              if success then None
              else Some ("Expected status " ++ show expectedStatus ++
                         ", got " ++ show (Response.status response)) |})
    (fun err =>
     let* finish := Date_now in
     let responseTimeMs := (finish - start)%Z in
     let message :=
       match err with
       | ErrorObj m => m
       | NonError _ => "Unknown error"
       end in
     let isTimeout := includes "abort" message in
     ret {| CheckResult.id := CheckConfig.id check;
            CheckResult.success := false;
            CheckResult.statusCode := None;
            CheckResult.responseTimeMs := responseTimeMs;
            CheckResult.error :=
              Some (if isTimeout
                    then "Timeout after " ++ show timeoutMs ++ "ms"
                    else message) |}).

(** ** alerts/slack.ts, alerts/telegram.ts, alerts/email.ts

    Each sender builds its message, issues one [fetch] and suspends on it;
    nothing before the [fetch] can throw. *)

Definition sendSlackAlert (webhookUrl : string) (alert : AlertPayload.t)
    : M (Promise unit) :=
  let* o := fetch_issue (SlackPOST webhookUrl alert) in
  ret (let* response := settle o in
       if negb (Response.ok response)
       then throw (ErrorObj ("Slack webhook failed: " ++
                             show (Response.status response)))
       else ret tt).

Definition sendTelegramAlert (botToken chatId : string)
    (alert : AlertPayload.t) : M (Promise unit) :=
  let* o := fetch_issue (TelegramPOST botToken chatId alert) in
  ret (let* response := settle o in
       if negb (Response.ok response)
       then throw (ErrorObj ("Telegram API failed: " ++
                             show (Response.status response) ++ " " ++
                             Response.body response))
       else ret tt).

Definition sendEmailAlert (apiKey from to : string) (alert : AlertPayload.t)
    : M (Promise unit) :=
  let* o := fetch_issue (EmailPOST apiKey from to alert) in
  ret (let* response := settle o in
       if negb (Response.ok response)
       then throw (ErrorObj ("Resend API failed: " ++
                             show (Response.status response) ++ " " ++
                             Response.body response))
       else ret tt).

(** ** alerts.ts: dispatch *)

(** The body of the [for] loop of [dispatchAlerts]: one channel, the tasks
    collected so far. *)
Definition dispatch_channel (check : CheckConfig.t) (env : MoltbotEnv.t)
    (payload : AlertPayload.t) (tasks : list (Promise unit))
    (channel : AlertChannel.t) : M (list (Promise unit)) :=
  if negb (shouldChannelReceive channel check) then ret tasks
  else
    match AlertChannel.type channel with
    | slack =>
        match truthy (MoltbotEnv.SLACK_WEBHOOK_URL env) with
        | Some webhookUrl =>
            let* p := sendSlackAlert webhookUrl payload in
            ret (app tasks [promise_catch p (fun err =>
                   console_error "[monitoring] Slack alert failed:" err)])
        | None => ret tasks
        end
    | telegram =>
        match truthy (MoltbotEnv.TELEGRAM_BOT_TOKEN env),
              truthy (MoltbotEnv.MONITORING_TELEGRAM_CHAT_ID env) with
        | Some botToken, Some chatId =>
            let* p := sendTelegramAlert botToken chatId payload in
            ret (app tasks [promise_catch p (fun err =>
                   console_error "[monitoring] Telegram alert failed:" err)])
        | _, _ => ret tasks
        end
    | email =>
        match truthy (MoltbotEnv.RESEND_API_KEY env),
              truthy (MoltbotEnv.RESEND_FROM_EMAIL env),
              truthy (MoltbotEnv.MONITORING_EMAIL_TO env) with
        | Some apiKey, Some from, Some to =>
            let* p := sendEmailAlert apiKey from to payload in
            ret (app tasks [promise_catch p (fun err =>
                   console_error "[monitoring] Email alert failed:" err)])
        | _, _, _ => ret tasks
        end
    end.

Definition dispatchAlerts (alertType : AlertType) (check : CheckConfig.t)
    (checkState : CheckState.t) (result : CheckResult.t)
    (config : MonitoringConfig.t) (env : MoltbotEnv.t) : M unit :=
  let* timestamp := Date_toISOString in
  let payload :=
    {| AlertPayload.type := alertType;
       AlertPayload.check := check;
       AlertPayload.checkState := checkState;
       AlertPayload.result := result;
       AlertPayload.timestamp := timestamp |} in
  let* tasks :=
    for_of (dispatch_channel check env payload)
           (MonitoringConfig.channels config) [] in
  Promise_all tasks.

(** ** checks.ts: the static configuration *)

Definition monitoringConfig : MonitoringConfig.t :=
  {| MonitoringConfig.checks :=
       [ {| CheckConfig.id := "campermate-website";
            CheckConfig.name := "Campermate Website";
            CheckConfig.type := api;
            CheckConfig.url := "https://www.campermate.com";
            CheckConfig.expectedStatus := Some 200%Z;
            CheckConfig.timeoutMs := None;
            CheckConfig.failureThreshold := None;
            CheckConfig.tags := Some ["production"] |};
         {| CheckConfig.id := "sandbox-health";
            CheckConfig.name := "Moltworker Health";
            CheckConfig.type := api;
            CheckConfig.url := "{{WORKER_URL}}/sandbox-health";
            CheckConfig.expectedStatus := Some 200%Z;
            CheckConfig.timeoutMs := None;
            CheckConfig.failureThreshold := None;
            CheckConfig.tags := Some ["infrastructure"] |} ];
     MonitoringConfig.channels :=
       [ AlertChannel.mk slack false None;
         AlertChannel.mk telegram true None;
         AlertChannel.mk email false None ];
     MonitoringConfig.defaultFailureThreshold := 2;
     MonitoringConfig.defaultTimeoutMs := 10000 |}.

(** ** state.ts: persistence *)

Definition bucket_get : M (option MonitoringState.t) := fun w =>
  match World.r2_get w with
  | R2Missing => (Ok None, w)
  | R2Stored st => (Ok (Some st), w)
  | R2GetThrows e => (Throw e, w)
  end.


Definition loadState : M MonitoringState.t :=
  try_catch
    (let* obj := bucket_get in
     match obj with
     | None => ret createEmptyState
     | Some st => ret st
     end)
    (fun err =>
       console_error "[monitoring] Failed to load state from R2:" err ;;
       ret createEmptyState).


(** ** index.ts: the orchestrator *)

(** The separator of the per-check console line, byte for byte as the
    source file holds it. *)
Definition log_dash : string :=
  String.string_of_list_ascii
    (map Ascii.ascii_of_nat [32; 195; 162; 226; 130; 172; 226; 128; 157; 32]%nat).

(** [history.push(entry)] and the trim that follows it:
    [if (history.length > 288) history = history.slice(-288)]. *)
Definition push_and_trim (history : list HistoryEntry.t)
    (entry : HistoryEntry.t) : list HistoryEntry.t :=
  let pushed := app history [entry] in
  if (288 <? length pushed)%nat then slice_last 288 pushed else pushed.

(** [state] with its [history] field replaced. *)
Definition with_history (state : CheckState.t)
    (history : list HistoryEntry.t) : CheckState.t :=
  {| CheckState.id := CheckState.id state;
     CheckState.status := CheckState.status state;
     CheckState.consecutiveFailures := CheckState.consecutiveFailures state;
     CheckState.lastCheck := CheckState.lastCheck state;
     CheckState.lastSuccess := CheckState.lastSuccess state;
     CheckState.lastError := CheckState.lastError state;
     CheckState.responseTimeMs := CheckState.responseTimeMs state;
     CheckState.history := Some history |}.

(** [newState.history.push(entry)], then the trim to the last 288 entries.
    [push] on a missing array throws a [TypeError]. *)
Definition record_history (newState : CheckState.t) (entry : HistoryEntry.t)
    : M CheckState.t :=
  match CheckState.history newState with
  | None =>
      throw (ErrorObj "Cannot read properties of undefined (reading 'push')")
  | Some history => ret (with_history newState (push_and_trim history entry))
  end.

(** The body of the [for] loop of [runMonitoringChecks]: one check, on the
    map [state.checks] as the checks before it left it. *)
Definition evaluate_check (config : MonitoringConfig.t) (env : MoltbotEnv.t)
    (checks : gmap string CheckState.t) (check : CheckConfig.t)
    : M (gmap string CheckState.t) :=
  let timeoutMs :=
    CheckConfig.timeoutMs check ?? MonitoringConfig.defaultTimeoutMs config in
  let threshold :=
    CheckConfig.failureThreshold check
      ?? MonitoringConfig.defaultFailureThreshold config in
  let checkState :=
    checks !! CheckConfig.id check
      ?? createEmptyCheckState (CheckConfig.id check) in
  let* result := runCheck check (MoltbotEnv.WORKER_URL env) timeoutMs in
  console_log
    ("[monitoring] " ++ CheckConfig.name check ++ ": " ++
     (if CheckResult.success result then "OK" else "FAIL") ++
     " (" ++ show (CheckResult.responseTimeMs result) ++ "ms)" ++
     match truthy (CheckResult.error result) with
     | Some e => log_dash ++ e
     | None => ""
     end) ;;
  let* now := Date_toISOString in
  let tr := computeTransition now checkState result threshold in
  let* timestamp := Date_toISOString in
  let* newState :=
    record_history (Transition.newState tr)
      {| HistoryEntry.timestamp := timestamp;
         HistoryEntry.status := CheckState.status (Transition.newState tr);
         HistoryEntry.responseTimeMs := CheckResult.responseTimeMs result;
         HistoryEntry.error := CheckResult.error result |} in
  let checks' := <[CheckConfig.id check := newState]> checks in
  match Transition.alertType tr with
  | Some alertType =>
      console_log
        ("[monitoring] Dispatching " ++
         (match alertType with failure => "failure" | recovery => "recovery" end)
         ++ " alert for " ++ CheckConfig.name check) ;;
      try_catch
        (dispatchAlerts alertType check newState result config env)
        (fun err =>
           console_error
             ("[monitoring] Alert dispatch failed for " ++
              CheckConfig.name check ++ ":") err) ;;
      ret checks'
  | None => ret checks'
  end.


(** ** The probe executor as the specification words it

    "Perform one probe attempt; on transport failure or timeout, retry up to
    [retry_count] times with [retry_delay_ms] between attempts, returning
    the last attempt's outcome."  One attempt is one run of the body of
    [runCheck]; an attempt failed in transport or timed out when it has no
    status code.  The delay between two attempts is real time and leaves no
    trace in the [World]. *)
Fixpoint probe_with_retries_spec (retry_count : nat) (check : CheckConfig.t)
    (workerUrl : option string) (timeoutMs : Z) : M CheckResult.t :=
  let* outcome := runCheck check workerUrl timeoutMs in
  match retry_count with
  | O => ret outcome
  | S remaining =>
      match CheckResult.statusCode outcome with
      | None => probe_with_retries_spec remaining check workerUrl timeoutMs
      | Some _ => ret outcome
      end
  end.

(** ** Worlds to run the code on *)

Definition quiet_world (net : nat -> FetchOutcome) : World.t :=
  {| World.net := net;
     World.requests := [];
     World.clock := fun k =>
       Instant.mk (1000 * Z.of_nat k) ("T" ++ show (Z.of_nat k));
     World.clock_reads := 0;
     World.console := [];
     World.r2_get := R2Missing;
     World.r2_put_throws := None;
     World.r2_puts := [] |}.

Definition no_bindings : MoltbotEnv.t :=
  MoltbotEnv.mk true None None None None None None None.

(** ** Vocabulary of the statements *)

(** The check states the code produces: the empty state of a target seen
    for the first time, the new state of a transition from any state
    whatever, and such a state once its history entry is recorded. *)
Inductive produced : CheckState.t -> Prop :=
| produced_empty (id : string) :
    produced (createEmptyCheckState id)
| produced_transition now state result threshold :
    produced (Transition.newState (computeTransition now state result threshold))
| produced_recorded state entry w state' w' :
    produced state ->
    record_history state entry w = (Ok state', w') ->
    produced state'.

(** Whenever the status is [healthy], no failure is counted. *)
Definition healthy_counts_zero (state : CheckState.t) : Prop :=
  CheckState.status state = healthy ->
  CheckState.consecutiveFailures state = 0%Z.

(** Values the examples use. *)
Definition successResult : CheckResult.t :=
  CheckResult.mk "test" true (Some 200%Z) 100 None.

Definition failureResult : CheckResult.t :=
  CheckResult.mk "test" false (Some 503%Z) 200
    (Some "Expected status 200, got 503").

Definition test_check (tags : option (list string)) : CheckConfig.t :=
  CheckConfig.mk "test" "Test" api "https://example.com" None None None tags.

(** The world after one run of [runCheck]: the clock read, the request
    issued, the clock read again. *)
Definition after_probe (check : CheckConfig.t) (workerUrl : option string)
    (timeoutMs : Z) (w : World.t) : World.t :=
  World.tick
    (World.issue (ProbeGET (CheckConfig.url check) workerUrl timeoutMs)
       (World.tick w)).

(** The elapsed time [runCheck] measures on [w]. *)
Definition elapsed (w : World.t) : Z :=
  (Instant.epoch_ms (World.clock w (S (World.clock_reads w))) -
   Instant.epoch_ms (World.clock w (World.clock_reads w)))%Z.

(** The outcome of the next [fetch] on [w]. *)
Definition next_outcome (w : World.t) : FetchOutcome :=
  World.net w (length (World.requests w)).

(** The value the [catch] block of [runCheck] receives. *)
Definition rejection (o : FetchOutcome) : option Thrown :=
  match o with
  | Responded _ _ => None
  | Aborted m => Some (ErrorObj m)
  | Failed e => Some e
  end.

(** A network whose first call fails in transport and whose later calls
    answer 200. *)
Definition flaky_net (k : nat) : FetchOutcome :=
  match k with
  | O => Failed (ErrorObj "Network connection lost.")
  | S _ => Responded 200 "ok"
  end.

(** The request [dispatchAlerts] issues for a channel: none when the channel
    is not to receive the check's alerts or when a binding it needs is
    missing or empty. *)
Definition channel_request (check : CheckConfig.t) (env : MoltbotEnv.t)
    (payload : AlertPayload.t) (channel : AlertChannel.t) : option Request :=
  if shouldChannelReceive channel check then
    match AlertChannel.type channel with
    | slack =>
        webhookUrl ← truthy (MoltbotEnv.SLACK_WEBHOOK_URL env);
        Some (SlackPOST webhookUrl payload)
    | telegram =>
        botToken ← truthy (MoltbotEnv.TELEGRAM_BOT_TOKEN env);
        chatId ← truthy (MoltbotEnv.MONITORING_TELEGRAM_CHAT_ID env);
        Some (TelegramPOST botToken chatId payload)
    | email =>
        apiKey ← truthy (MoltbotEnv.RESEND_API_KEY env);
        from ← truthy (MoltbotEnv.RESEND_FROM_EMAIL env);
        to ← truthy (MoltbotEnv.MONITORING_EMAIL_TO env);
        Some (EmailPOST apiKey from to payload)
    end
  else None.

(** A sender succeeds exactly on a 2xx response. *)
Definition delivered (o : FetchOutcome) : bool :=
  match o with
  | Responded status body => Response.ok (Response.mk status body)
  | Aborted _ | Failed _ => false
  end.

(** The console text that reports the failure of a channel's request. *)
Definition failure_text (req : Request) : string :=
  match req with
  | ProbeGET _ _ _ => ""
  | SlackPOST _ _ => "[monitoring] Slack alert failed:"
  | TelegramPOST _ _ _ => "[monitoring] Telegram alert failed:"
  | EmailPOST _ _ _ _ => "[monitoring] Email alert failed:"
  end.

(** Of the requests [reqs], issued as calls [k], [k+1], ... of [fetch],
    those the network does not deliver. *)
Fixpoint undelivered (net : nat -> FetchOutcome) (k : nat)
    (reqs : list Request) : list Request :=
  match reqs with
  | [] => []
  | r :: rest =>
      if delivered (net k) then undelivered net (S k) rest
      else r :: undelivered net (S k) rest
  end.

Definition issues (reqs : list Request) (w : World.t) : World.t :=
  fold_left (fun w r => World.issue r w) reqs w.

Definition prints (lines : list LogLine.t) (w : World.t) : World.t :=
  fold_left (fun w l => World.print l w) lines w.

(** Awaiting [tasks] together fulfils and prints [lines]. *)
Definition tasks_log (tasks : list (Promise unit)) (lines : list LogLine.t)
    : Prop :=
  forall w, Promise_all tasks w = (Ok tt, prints lines w).

Definition level_text (l : LogLine.t) : LogLevel * string :=
  (LogLine.level l, LogLine.text l).

(** A sender's promise with its [catch] handler attached: fulfilled in
    silence when the request is delivered, fulfilled after one error line
    otherwise. *)
Definition caught_task (req : Request) (o : FetchOutcome)
    (p : Promise unit) : Prop :=
  exists extra,
    (forall w, p w = (Ok tt, prints extra w)) /\
    map level_text extra =
      if delivered o then [] else [(error, failure_text req)].

(** Three enabled channels with all their bindings, and a network on which
    Slack answers 500, Telegram's connection fails and the mail API
    answers 200. *)
Definition all_channels : MonitoringConfig.t :=
  MonitoringConfig.mk []
    [ AlertChannel.mk slack true None;
      AlertChannel.mk telegram true (Some ["production"]);
      AlertChannel.mk email true None ] 2 10000.

Definition all_bindings : MoltbotEnv.t :=
  MoltbotEnv.mk true None (Some "https://hooks.example/x")
    (Some "token") (Some "chat") (Some "key") (Some "from@x") (Some "to@x").

Definition failing_senders (k : nat) : FetchOutcome :=
  match k with
  | 0 => Responded 500 "oops"
  | 1 => Failed (ErrorObj "Network connection lost.")
  | _ => Responded 200 "{}"
  end.

(** What one evaluation computes from the prior state of the check, the
    probe result and the two clock reads that follow the probe. *)
Definition evaluated (config : MonitoringConfig.t)
    (checks : gmap string CheckState.t) (check : CheckConfig.t)
    (result : CheckResult.t) (w : World.t) : CheckState.t :=
  let prior :=
    checks !! CheckConfig.id check
      ?? createEmptyCheckState (CheckConfig.id check) in
  let threshold :=
    CheckConfig.failureThreshold check
      ?? MonitoringConfig.defaultFailureThreshold config in
  let tr :=
    computeTransition
      (Instant.iso (World.clock w (2 + World.clock_reads w)))
      prior result threshold in
  with_history (Transition.newState tr)
    (push_and_trim (CheckState.history prior ?? [])
       {| HistoryEntry.timestamp :=
            Instant.iso (World.clock w (3 + World.clock_reads w));
          HistoryEntry.status := CheckState.status (Transition.newState tr);
          HistoryEntry.responseTimeMs := CheckResult.responseTimeMs result;
          HistoryEntry.error := CheckResult.error result |}).

(** The state of the test that fills the history: 288 entries, response
    times 100, 101, ... *)
Definition full_history : list HistoryEntry.t :=
  map (fun i =>
         HistoryEntry.mk "2025-01-01T00:00:00Z" healthy (100 + Z.of_nat i) None)
      (seq 0 288).

Definition campermate : CheckConfig.t :=
  CheckConfig.mk "campermate-website" "Campermate Website" api
    "https://www.campermate.com" (Some 200%Z) None None (Some ["production"]).

Definition full_checks : gmap string CheckState.t :=
  {[ "campermate-website" :=
       CheckState.mk "campermate-website" healthy 0
         (Some "2025-01-01T00:00:00Z") (Some "2025-01-01T00:00:00Z") None
         (Some 100%Z) (Some full_history) ]}.

(** A state whose history is present and holds at most 288 entries. *)
Definition bounded_history (state : CheckState.t) : Prop :=
  exists history,
    CheckState.history state = Some history /\ (length history <= 288)%nat.

(** ** checks.ts: resolveCheckUrl *)

(** [s.slice(n)] on a string. *)
Fixpoint string_drop (n : nat) (s : string) : string :=
  match n, s with
  | O, _ => s
  | S _, EmptyString => EmptyString
  | S n', String _ rest => string_drop n' rest
  end.

(** The text before and the text after the first occurrence of [needle] in
    [hay]: the split [String.prototype.replace] makes for a string
    pattern. *)
Fixpoint split_first (needle hay : string) : option (string * string) :=
  if String.prefix needle hay
  then Some (EmptyString, string_drop (String.length needle) hay)
  else
    match hay with
    | EmptyString => None
    | String c rest =>
        match split_first needle rest with
        | Some (before, after) => Some (String c before, after)
        | None => None
        end
    end.

(** The substitution of a replacement string for a string pattern
    ([GetSubstitution] without captures): [$$] is a dollar, [$&] the match,
    [$`] the text before it, [$'] the text after it; any other dollar
    stands for itself. *)
Fixpoint expand_replacement (matched before after replacement : string)
    : string :=
  match replacement with
  | EmptyString => EmptyString
  | String "$" (String "$" rest) =>
      String "$" (expand_replacement matched before after rest)
  | String "$" (String "&" rest) =>
      matched ++ expand_replacement matched before after rest
  | String "$" (String "`" rest) =>
      before ++ expand_replacement matched before after rest
  | String "$" (String "'" rest) =>
      after ++ expand_replacement matched before after rest
  | String c rest => String c (expand_replacement matched before after rest)
  end.

(** [s.replace(pattern, replacement)] for a string [pattern]: the first
    occurrence only. *)
Definition str_replace (pattern replacement s : string) : string :=
  match split_first pattern s with
  | None => s
  | Some (before, after) =>
      before ++ expand_replacement pattern before after replacement ++ after
  end.

(** [s.replace(/\/+$/, '')]: the trailing slashes go. *)
Fixpoint strip_trailing_slashes (s : string) : string :=
  match s with
  | EmptyString => EmptyString
  | String c rest =>
      match strip_trailing_slashes rest with
      | EmptyString => if Ascii.eqb c "/" then EmptyString
                       else String c EmptyString
      | stripped => String c stripped
      end
  end.

Definition WORKER_URL_placeholder : string := "{{WORKER_URL}}".

Definition resolveCheckUrl (url : string) (workerUrl : option string)
    : string :=
  match truthy workerUrl with
  | None => str_replace WORKER_URL_placeholder "http://localhost:8787" url
  | Some workerUrl =>
      str_replace WORKER_URL_placeholder (strip_trailing_slashes workerUrl) url
  end.

(** ** alerts/telegram.ts and alerts/email.ts: escapeHtml *)

(** The double quote, character 34. *)
Notation double_quote :=
  (Ascii false true false false false true false false).

(** [s.replace(/c/g, replacement)] for a one-character pattern [c] and a
    replacement without dollar. *)
Fixpoint replace_all (c : ascii) (replacement s : string) : string :=
  match s with
  | EmptyString => EmptyString
  | String d rest =>
      if Ascii.eqb d c then replacement ++ replace_all c replacement rest
      else String d (replace_all c replacement rest)
  end.

Module Telegram.
Definition escapeHtml (text : string) : string :=
  replace_all ">" "&gt;"
    (replace_all "<" "&lt;"
       (replace_all "&" "&amp;" text)).
End Telegram.

Module Email.
Definition escapeHtml (text : string) : string :=
  replace_all double_quote "&quot;"
    (replace_all ">" "&gt;"
       (replace_all "<" "&lt;"
          (replace_all "&" "&amp;" text))).
End Email.

(** What one character becomes under a simultaneous escape of [&], [<],
    [>] and, when [quotes] is set, of the double quote. *)
Definition escape_char (quotes : bool) (c : ascii) : string :=
  if Ascii.eqb c "&" then "&amp;"
  else if Ascii.eqb c "<" then "&lt;"
  else if Ascii.eqb c ">" then "&gt;"
  else if quotes && Ascii.eqb c double_quote then "&quot;"
  else String c EmptyString.

Fixpoint escape_each (quotes : bool) (s : string) : string :=
  match s with
  | EmptyString => EmptyString
  | String c rest => escape_char quotes c ++ escape_each quotes rest
  end.

(** [c] occurs in [s]. *)
Fixpoint occurs (c : ascii) (s : string) : bool :=
  match s with
  | EmptyString => false
  | String d rest => Ascii.eqb d c || occurs c rest
  end.

(** ** client/pages/MonitoringPage.tsx: padHistory *)

Definition MAX_HISTORY : nat := 288.

(** [Array.from({ length: n }, () => null)] followed by the entries; a
    slot is [None] for [null]. *)
Definition padHistory {A} (history : list A) : list (option A) :=
  if (MAX_HISTORY <=? length history)%nat
  then map Some (slice_last MAX_HISTORY history)
  else app (repeat None (MAX_HISTORY - length history)) (map Some history).

(** ** routes/public.ts: GET /api/monitoring/status *)

(** One entry of the [checks] array of the response.  [uptimePercent] is
    the double [Math.round((successCount / history.length) * 10000) / 100],
    or [null] for an empty history; the entry keeps the two counts that
    determine it. *)
Module CheckSummary.
Record t := mk {
  id : string;
  name : string;
  status : CheckStatus;
  lastCheck : option string;
  responseTimeMs : option Z;
  uptimeCounts : option (nat * nat);
}.
End CheckSummary.




(** ** The life of one target *)

(** One evaluation of the orchestrator loop, seen from the target's state:
    the transition, then the history entry recorded. *)
Module Evaluation.
Record t := mk {
  result : CheckResult.t;
  threshold : Z;
  now : string;
  timestamp : string;
}.

Definition apply (state : CheckState.t) (ev : t) : CheckState.t :=
  let tr := computeTransition (now ev) state (result ev) (threshold ev) in
  with_history (Transition.newState tr)
    (push_and_trim (CheckState.history state ?? [])
       {| HistoryEntry.timestamp := timestamp ev;
          HistoryEntry.status := CheckState.status (Transition.newState tr);
          HistoryEntry.responseTimeMs := CheckResult.responseTimeMs (result ev);
          HistoryEntry.error := CheckResult.error (result ev) |}).

Definition alert (state : CheckState.t) (ev : t) : option AlertType :=
  Transition.alertType
    (computeTransition (now ev) state (result ev) (threshold ev)).
End Evaluation.

(** The states a target goes through from its first observation on. *)
Inductive reachable (id : string) : CheckState.t -> Prop :=
| reachable_empty : reachable id (createEmptyCheckState id)
| reachable_step state ev :
    reachable id state -> reachable id (Evaluation.apply state ev).

(** The alerts a sequence of evaluations intends, in order. *)
Fixpoint alerts_of (state : CheckState.t) (evs : list Evaluation.t)
    : list AlertType :=
  match evs with
  | [] => []
  | ev :: rest =>
      let next := alerts_of (Evaluation.apply state ev) rest in
      match Evaluation.alert state ev with
      | Some a => a :: next
      | None => next
      end
  end.

(** The state after a sequence of evaluations. *)
Definition state_after (state : CheckState.t) (evs : list Evaluation.t)
    : CheckState.t :=
  fold_left Evaluation.apply evs state.

(** [alerts] takes turns, starting with [expected]. *)
Fixpoint takes_turns (expected : AlertType) (alerts : list AlertType) : Prop :=
  match alerts with
  | [] => True
  | a :: rest =>
      a = expected /\
      takes_turns (match expected with
                   | failure => recovery
                   | recovery => failure
                   end) rest
  end.

(** What holds of every state of a target [id] from its first observation
    on. *)
Module WellFormed.
Record t (id : string) (state : CheckState.t) : Prop := mk {
  same_id : CheckState.id state = id;
  counted : (0 <= CheckState.consecutiveFailures state)%Z;
  zero_when_up :
    CheckState.consecutiveFailures state = 0%Z <->
    (CheckState.status state = unknown \/ CheckState.status state = healthy);
  history_bounded : bounded_history state;
  fresh_when_unknown :
    CheckState.status state = unknown ->
    CheckState.history state = Some [] /\ CheckState.lastCheck state = None;
  newest_is_status :
    CheckState.status state <> unknown ->
    exists entry,
      last (CheckState.history state ?? []) = Some entry /\
      HistoryEntry.status entry = CheckState.status state;
  no_unknown_entry :
    Forall (fun entry => HistoryEntry.status entry <> unknown)
           (CheckState.history state ?? []);
  success_time :
    CheckState.status state = healthy ->
    CheckState.lastSuccess state = CheckState.lastCheck state /\
    CheckState.lastCheck state <> None;
}.
End WellFormed.

(** ** Frames of the world *)

(** [w'] differs from [w] at most by clock reads, requests issued and
    console lines: the oracles and the bucket are as they were. *)
Definition bucket_untouched (w w' : World.t) : Prop :=
  World.net w' = World.net w /\
  World.clock w' = World.clock w /\
  World.r2_get w' = World.r2_get w /\
  World.r2_put_throws w' = World.r2_put_throws w /\
  World.r2_puts w' = World.r2_puts w.


Definition is_probe (req : Request) : bool :=
  match req with
  | ProbeGET _ _ _ => true
  | _ => false
  end.

(** The state the run starts from: what the bucket holds, or nothing. *)
Definition loaded_checks (w : World.t) : gmap string CheckState.t :=
  match World.r2_get w with
  | R2Stored state => MonitoringState.checks state
  | R2Missing | R2GetThrows _ => ∅
  end.

(** The payload of an alert request. *)
Definition payload_of (req : Request) : option AlertPayload.t :=
  match req with
  | ProbeGET _ _ _ => None
  | SlackPOST _ p | TelegramPOST _ _ p | EmailPOST _ _ _ p => Some p
  end.

(** [s] without its last character. *)
Fixpoint string_removelast (s : string) : string :=
  match s with
  | EmptyString => EmptyString
  | String c EmptyString => EmptyString
  | String c rest => String c (string_removelast rest)
  end.

(** An occurrence of [needle] starts within the first [length before]
    characters of [before ++ needle]. *)
Definition starts_within (needle before : string) : bool :=
  includes needle (before ++ string_removelast needle).

(** [k] slashes. *)
Fixpoint slashes (k : nat) : string :=
  match k with
  | O => EmptyString
  | S k' => String "/" (slashes k')
  end.

(** Console lines of the run. *)
Definition load_failed_line (e : Thrown) : LogLine.t :=
  LogLine.mk error "[monitoring] Failed to load state from R2:" (Some e).



(** ** monitor.ts: the [resolveUrl] callback *)

Definition monitor_resolveUrl (url : string) (WORKER_URL : option string)
    : string :=
  str_replace WORKER_URL_placeholder
    (strip_trailing_slashes (WORKER_URL ?? "http://localhost:8787")) url.


(** * Proof automation *)

Ltac run_monad :=
  unfold bind, try_catch, ret, throw, Date_now, Date_toISOString, read_clock,
    fetch, fetch_issue, settle, console_log, console_warn, console_error,
    console_write; cbn.

(** * The state machine *)

Lemma arr_includes_In (x : string) (arr : list string) :
  arr_includes x arr = true <-> In x arr.
Proof.
  unfold arr_includes. rewrite existsb_exists. split.
  - intros (y & Hy & Heq). apply String.eqb_eq in Heq. now subst.
  - intros Hin. exists x. split; [assumption | apply String.eqb_refl].
Qed.

Lemma transition_status_cases now state result threshold :
  let st := CheckState.status
              (Transition.newState (computeTransition now state result threshold)) in
  st = healthy \/ st = degraded \/ st = unhealthy.
Proof.
  unfold computeTransition.
  destruct (CheckResult.success result); cbn; [now left |].
  destruct (_ >=? _)%Z; cbn; [right; now right | right; now left].
Qed.

(** C1 -- on a failed probe the counter grows by exactly one; at or above
    the threshold the status is [unhealthy] and a [failure] alert is
    intended exactly when the prior status was not [unhealthy]; below the
    threshold the status is [degraded] and nothing is intended.  With
    threshold 1 the first failure of a fresh target makes it [unhealthy]
    with a [failure] alert. *)
Theorem computeTransition_failure now state result threshold :
  CheckResult.success result = false ->
  let tr := computeTransition now state result threshold in
  let incremented := (CheckState.consecutiveFailures state + 1)%Z in
  CheckState.consecutiveFailures (Transition.newState tr) = incremented /\
  ((threshold <= incremented)%Z ->
     CheckState.status (Transition.newState tr) = unhealthy /\
     (Transition.alertType tr = Some failure <->
        CheckState.status state <> unhealthy) /\
     (CheckState.status state = unhealthy -> Transition.alertType tr = None)) /\
  ((incremented < threshold)%Z ->
     CheckState.status (Transition.newState tr) = degraded /\
     Transition.alertType tr = None) /\
  (forall id,
     let first := computeTransition now (createEmptyCheckState id) result 1 in
     CheckState.status (Transition.newState first) = unhealthy /\
     CheckState.consecutiveFailures (Transition.newState first) = 1%Z /\
     Transition.alertType first = Some failure).
Proof.
  intros Hfail tr incremented. subst tr incremented.
  unfold computeTransition. rewrite Hfail.
  split; [| split; [| split]].
  - destruct (_ >=? _)%Z; reflexivity.
  - intros Hge.
    destruct (Z.geb_spec (CheckState.consecutiveFailures state + 1) threshold)
      as [_ | Hlt]; [| lia].
    cbn. split; [reflexivity |].
    case_bool_decide as Hprior; split.
    + split; [discriminate | intros Hne; now destruct Hne].
    + reflexivity.
    + split; [intros _; exact Hprior | reflexivity].
    + intros Habs. now destruct Hprior.
  - intros Hlt.
    destruct (Z.geb_spec (CheckState.consecutiveFailures state + 1) threshold)
      as [Hge | _]; [lia |].
    cbn. split; reflexivity.
  - intros id. cbn. repeat split; reflexivity.
Qed.

Lemma computeTransition_failure_witness :
  CheckState.status
    (Transition.newState
       (computeTransition "now" (createEmptyCheckState "test") failureResult 2))
    = degraded /\
  Transition.alertType
    (computeTransition "now" (createEmptyCheckState "test") failureResult 2)
    = None.
Proof.
  apply (computeTransition_failure "now" (createEmptyCheckState "test")
           failureResult 2).
  - reflexivity.
  - cbn. lia.
Defined.

(** C2 -- on a successful probe the status is [healthy], the counter is 0,
    and a [recovery] alert is intended exactly when the prior status was
    [unhealthy]: from [unknown], [healthy] or [degraded] nothing is. *)
Theorem computeTransition_success now state result threshold :
  CheckResult.success result = true ->
  let tr := computeTransition now state result threshold in
  CheckState.status (Transition.newState tr) = healthy /\
  CheckState.consecutiveFailures (Transition.newState tr) = 0%Z /\
  (Transition.alertType tr = Some recovery <->
     CheckState.status state = unhealthy) /\
  (CheckState.status state <> unhealthy -> Transition.alertType tr = None).
Proof.
  intros Hok tr. subst tr. unfold computeTransition. rewrite Hok. cbn.
  split; [reflexivity | split; [reflexivity |]].
  case_bool_decide as Hprior; split.
  - split; [intros _; exact Hprior | reflexivity].
  - intros Hne. now destruct Hne.
  - split; [discriminate | intros Habs; now destruct Hprior].
  - reflexivity.
Qed.

Lemma computeTransition_success_witness :
  let degraded_state :=
    CheckState.mk "test" degraded 1 None None (Some "e") None (Some []) in
  let tr := computeTransition "now" degraded_state successResult 2 in
  CheckState.status (Transition.newState tr) = healthy /\
  Transition.alertType tr = None.
Proof.
  intros degraded_state tr.
  destruct (computeTransition_success "now" degraded_state successResult 2
              eq_refl) as (Hstatus & _ & _ & Hsilent).
  split; [exact Hstatus | apply Hsilent; discriminate].
Defined.

Lemma record_history_keeps state entry w state' w' :
  record_history state entry w = (Ok state', w') ->
  CheckState.status state' = CheckState.status state /\
  CheckState.consecutiveFailures state' = CheckState.consecutiveFailures state.
Proof.
  unfold record_history. destruct (CheckState.history state); cbn.
  - intros [= <- _]. split; reflexivity.
  - discriminate.
Qed.

(** C3 -- every check state the code produces (the empty state, the new
    state of a transition, that state with its history entry recorded)
    has [consecutiveFailures = 0] whenever its status is [healthy]. *)
Theorem healthy_has_no_failures state :
  produced state -> healthy_counts_zero state.
Proof.
  induction 1 as [id | now state result threshold
                 | state entry w state' w' _ IH Hrec].
  - intros _. reflexivity.
  - unfold healthy_counts_zero, computeTransition.
    destruct (CheckResult.success result); cbn; [reflexivity |].
    destruct (_ >=? _)%Z; cbn; discriminate.
  - apply record_history_keeps in Hrec as [Hst Hcf].
    unfold healthy_counts_zero in *. rewrite Hst, Hcf. exact IH.
Qed.

Lemma healthy_has_no_failures_witness :
  let unhealthy_state :=
    CheckState.mk "test" unhealthy 3 None None (Some "e") None (Some []) in
  CheckState.consecutiveFailures
    (Transition.newState
       (computeTransition "now" unhealthy_state successResult 2)) = 0%Z.
Proof.
  intros unhealthy_state.
  apply (healthy_has_no_failures
           (Transition.newState
              (computeTransition "now" unhealthy_state successResult 2))).
  - apply produced_transition.
  - reflexivity.
Defined.

(** The scenario of a target that goes down and comes back, threshold 2:
    [unknown], then [degraded] in silence, [unhealthy] with a [failure]
    alert, [unhealthy] in silence, [healthy] with a [recovery] alert. *)
Example down_and_back :
  let step state result := computeTransition "now" state result 2 in
  let run1 := step (createEmptyCheckState "test") failureResult in
  let run2 := step (Transition.newState run1) failureResult in
  let run3 := step (Transition.newState run2) failureResult in
  let run4 := step (Transition.newState run3) successResult in
  map (fun tr => (CheckState.status (Transition.newState tr),
                  Transition.alertType tr)) [run1; run2; run3; run4]
  = [(degraded, None); (unhealthy, Some failure); (unhealthy, None);
     (healthy, Some recovery)] /\
  CheckState.consecutiveFailures (Transition.newState run4) = 0%Z.
Proof. split; reflexivity. Qed.

(** * Tag routing *)

(** C6 -- an enabled channel without tags (none, or an empty list) receives
    every alert; an enabled channel with tags receives an alert exactly
    when the check has a tag in common with it, so never for a check
    without tags. *)
Theorem shouldChannelReceive_enabled channel check :
  AlertChannel.enabled channel = true ->
  (AlertChannel.tags channel = None \/ AlertChannel.tags channel = Some [] ->
     shouldChannelReceive channel check = true) /\
  (forall channel_tags,
     AlertChannel.tags channel = Some channel_tags -> channel_tags <> [] ->
     (shouldChannelReceive channel check = true <->
        exists tag, In tag channel_tags /\
                    In tag (CheckConfig.tags check ?? [])) /\
     (CheckConfig.tags check = None \/ CheckConfig.tags check = Some [] ->
        shouldChannelReceive channel check = false)).
Proof.
  intros Hen. unfold shouldChannelReceive. rewrite Hen. cbn. split.
  - intros [-> | ->]; reflexivity.
  - intros channel_tags -> Hne.
    destruct channel_tags as [| t0 ts]; [congruence |].
    destruct (CheckConfig.tags check) as [[| c0 cs] |]; cbn [nullish].
    + split; [| intros _; reflexivity].
      split; [discriminate | intros (tag & _ & [])].
    + split; [| intros [|]; discriminate].
      rewrite existsb_exists.
      split; intros (tag & Hin & Hcommon); exists tag;
        (split; [exact Hin | now apply arr_includes_In]).
    + split; [| intros _; reflexivity].
      split; [discriminate | intros (tag & _ & [])].
Qed.

Lemma shouldChannelReceive_enabled_witness :
  shouldChannelReceive (AlertChannel.mk slack true (Some ["production"]))
                       (test_check (Some ["production"; "web"])) = true /\
  shouldChannelReceive (AlertChannel.mk slack true (Some ["production"]))
                       (test_check None) = false.
Proof.
  split.
  - destruct (shouldChannelReceive_enabled
                (AlertChannel.mk slack true (Some ["production"]))
                (test_check (Some ["production"; "web"])) eq_refl)
      as [_ Htagged].
    destruct (Htagged ["production"] eq_refl) as [Hiff _]; [discriminate |].
    apply Hiff. exists "production". split; left; reflexivity.
  - destruct (shouldChannelReceive_enabled
                (AlertChannel.mk slack true (Some ["production"]))
                (test_check None) eq_refl)
      as [_ Htagged].
    destruct (Htagged ["production"] eq_refl) as [_ Hnone]; [discriminate |].
    apply Hnone. left. reflexivity.
Defined.

Example production_channel_skips_staging :
  shouldChannelReceive (AlertChannel.mk slack true (Some ["production"]))
                       (test_check (Some ["staging"])) = false.
Proof. reflexivity. Qed.

(** * The probe runner *)

Lemma runCheck_responded check workerUrl timeoutMs w status body :
  next_outcome w = Responded status body ->
  runCheck check workerUrl timeoutMs w =
    (Ok {| CheckResult.id := CheckConfig.id check;
           CheckResult.success :=
             (status =? CheckConfig.expectedStatus check ?? 200)%Z;
           CheckResult.statusCode := Some status;
           CheckResult.responseTimeMs := elapsed w;
           CheckResult.error :=
             if (status =? CheckConfig.expectedStatus check ?? 200)%Z
             then None
             else Some ("Expected status " ++
                        show (CheckConfig.expectedStatus check ?? 200%Z) ++
                        ", got " ++ show status) |},
     after_probe check workerUrl timeoutMs w).
Proof.
  unfold next_outcome. intros Hnet. unfold runCheck. run_monad.
  rewrite Hnet. reflexivity.
Qed.

Lemma runCheck_rejected check workerUrl timeoutMs w err :
  rejection (next_outcome w) = Some err ->
  runCheck check workerUrl timeoutMs w =
    (Ok {| CheckResult.id := CheckConfig.id check;
           CheckResult.success := false;
           CheckResult.statusCode := None;
           CheckResult.responseTimeMs := elapsed w;
           CheckResult.error :=
             Some (match err with
                   | ErrorObj m =>
                       if includes "abort" m
                       then "Timeout after " ++ show timeoutMs ++ "ms"
                       else m
                   | NonError _ => "Unknown error"
                   end) |},
     after_probe check workerUrl timeoutMs w).
Proof.
  unfold next_outcome. intros Hnet. unfold runCheck. run_monad.
  destruct (World.net w (length (World.requests w))) as [s b | m | e];
    cbn in Hnet; [discriminate | |]; injection Hnet as <-.
  - reflexivity.
  - destruct e; reflexivity.
Qed.

(** [runCheck] always returns: every exception of its attempt is caught. *)
Lemma runCheck_returns check workerUrl timeoutMs w :
  exists result,
    runCheck check workerUrl timeoutMs w =
      (Ok result, after_probe check workerUrl timeoutMs w) /\
    CheckResult.responseTimeMs result = elapsed w.
Proof.
  destruct (next_outcome w) as [s b | m | e] eqn:Hnet.
  - eexists. split; [apply (runCheck_responded _ _ _ _ _ _ Hnet) | reflexivity].
  - eexists. split; [apply (runCheck_rejected _ _ _ _ (ErrorObj m)) | reflexivity].
    now rewrite Hnet.
  - eexists. split; [apply (runCheck_rejected _ _ _ _ e) | reflexivity].
    now rewrite Hnet.
Qed.

(** C8 -- a check carries no assertion list, only [expectedStatus]: when the
    probe gets a response, the outcome is a success exactly when the
    response status equals [expectedStatus], or 200 when that is not set;
    the error is null on success and otherwise the message naming the
    expected and the actual status. *)
Theorem runCheck_status_assertion check workerUrl timeoutMs w status body :
  next_outcome w = Responded status body ->
  exists result w',
    runCheck check workerUrl timeoutMs w = (Ok result, w') /\
    let expected := CheckConfig.expectedStatus check ?? 200%Z in
    (CheckResult.success result = true <-> status = expected) /\
    CheckResult.statusCode result = Some status /\
    (CheckResult.success result = true -> CheckResult.error result = None) /\
    (CheckResult.success result = false ->
       CheckResult.error result =
         Some ("Expected status " ++ show expected ++ ", got " ++ show status)).
Proof.
  intros Hnet. eexists. eexists.
  split; [apply (runCheck_responded _ _ _ _ _ _ Hnet) |].
  cbn. split; [apply Z.eqb_eq | split; [reflexivity |]].
  destruct (status =? _)%Z; split; intros; congruence.
Qed.

Lemma runCheck_status_assertion_witness :
  exists result w',
    runCheck (test_check None) None 10000
             (quiet_world (fun _ => Responded 503 "down")) = (Ok result, w') /\
    CheckResult.success result = false /\
    CheckResult.error result = Some "Expected status 200, got 503".
Proof.
  destruct (runCheck_status_assertion (test_check None) None 10000
              (quiet_world (fun _ => Responded 503 "down")) 503 "down" eq_refl)
    as (result & w' & Hrun & Hiff & _ & _ & Herr).
  exists result, w'. split; [exact Hrun |].
  assert (Hfail : CheckResult.success result = false).
  { destruct (CheckResult.success result); [| reflexivity].
    destruct Hiff as [Hiff _]. specialize (Hiff eq_refl). discriminate. }
  split; [exact Hfail | exact (Herr Hfail)].
Defined.









(** C5 -- [runCheck] makes exactly one attempt, whatever the configuration:
    it issues one request and returns the outcome of that attempt, a
    success exactly when that attempt got the expected status; it is the
    specified executor with no retry. *)
Theorem runCheck_single_attempt check workerUrl timeoutMs w :
  exists result w',
    runCheck check workerUrl timeoutMs w = (Ok result, w') /\
    World.requests w' =
      app (World.requests w)
          [ProbeGET (CheckConfig.url check) workerUrl timeoutMs] /\
    (CheckResult.success result = true <->
       exists body,
         next_outcome w =
           Responded (CheckConfig.expectedStatus check ?? 200%Z) body) /\
    probe_with_retries_spec 0 check workerUrl timeoutMs w = (Ok result, w').
Proof.
  assert (Hspec : forall r w1,
            runCheck check workerUrl timeoutMs w = (Ok r, w1) ->
            probe_with_retries_spec 0 check workerUrl timeoutMs w = (Ok r, w1)).
  { intros r w1 Hrun. cbn. unfold bind. now rewrite Hrun. }
  destruct (next_outcome w) as [s b | m0 | e] eqn:Hnet.
  - eexists. eexists.
    split; [apply (runCheck_responded _ _ _ _ _ _ Hnet) |].
    split; [reflexivity |]. split.
    + cbn. rewrite Z.eqb_eq. split.
      * intros ->. now exists b.
      * intros (body & [= -> _]). reflexivity.
    + apply Hspec. apply (runCheck_responded _ _ _ _ _ _ Hnet).
  - eexists. eexists.
    split; [apply (runCheck_rejected _ _ _ _ (ErrorObj m0)); now rewrite Hnet |].
    split; [reflexivity |]. split.
    + cbn. split; [discriminate | intros (body & Habs); discriminate].
    + apply Hspec. apply (runCheck_rejected _ _ _ _ (ErrorObj m0)).
      now rewrite Hnet.
  - eexists. eexists.
    split; [apply (runCheck_rejected _ _ _ _ e); now rewrite Hnet |].
    split; [reflexivity |]. split.
    + cbn. split; [discriminate | intros (body & Habs); discriminate].
    + apply Hspec. apply (runCheck_rejected _ _ _ _ e). now rewrite Hnet.
Qed.

(** Counterexample to C5 as stated: with one retry allowed the specified executor
    makes a second attempt after the transport failure and returns its
    success; [runCheck] issues one request and returns the failure. *)
Lemma runCheck_does_not_retry :
  let w := quiet_world flaky_net in
  (exists w', probe_with_retries_spec 1 (test_check None) None 10000 w =
     (Ok (CheckResult.mk "test" true (Some 200%Z) 1000 None), w')) /\
  (exists w', runCheck (test_check None) None 10000 w =
     (Ok (CheckResult.mk "test" false None 1000
            (Some "Network connection lost.")), w') /\
     World.requests w' = [ProbeGET "https://example.com" None 10000]).
Proof.
  split.
  - eexists. reflexivity.
  - eexists. split; reflexivity.
Qed.

(** * Alert dispatch *)

Lemma issues_requests reqs w :
  World.requests (issues reqs w) = app (World.requests w) reqs.
Proof.
  revert w. induction reqs as [| r reqs IH]; intros w.
  - cbn. now rewrite app_nil_r.
  - change (issues (r :: reqs) w) with (issues reqs (World.issue r w)).
    rewrite IH. cbn. now rewrite <- app_assoc.
Qed.

Lemma issues_keeps reqs w :
  World.console (issues reqs w) = World.console w /\
  World.net (issues reqs w) = World.net w /\
  World.clock (issues reqs w) = World.clock w /\
  World.clock_reads (issues reqs w) = World.clock_reads w.
Proof.
  revert w. induction reqs as [| r reqs IH]; intros w; [easy |].
  change (issues (r :: reqs) w) with (issues reqs (World.issue r w)).
  destruct (IH (World.issue r w)) as (-> & -> & -> & ->). easy.
Qed.

Lemma prints_console lines w :
  World.console (prints lines w) = app (World.console w) lines.
Proof.
  revert w. induction lines as [| l lines IH]; intros w.
  - cbn. now rewrite app_nil_r.
  - change (prints (l :: lines) w) with (prints lines (World.print l w)).
    rewrite IH. cbn. now rewrite <- app_assoc.
Qed.

Lemma prints_keeps lines w :
  World.requests (prints lines w) = World.requests w /\
  World.net (prints lines w) = World.net w /\
  World.clock (prints lines w) = World.clock w /\
  World.clock_reads (prints lines w) = World.clock_reads w.
Proof.
  revert w. induction lines as [| l lines IH]; intros w; [easy |].
  change (prints (l :: lines) w) with (prints lines (World.print l w)).
  destruct (IH (World.print l w)) as (-> & -> & -> & ->). easy.
Qed.

Lemma prints_app lines more w :
  prints (app lines more) w = prints more (prints lines w).
Proof. unfold prints. apply fold_left_app. Qed.

Lemma Promise_all_app tasks more w w1 :
  Promise_all tasks w = (Ok tt, w1) ->
  Promise_all (app tasks more) w = Promise_all more w1.
Proof.
  revert w. induction tasks as [| p tasks IH]; intros w; cbn.
  - now intros [= ->].
  - destruct (p w) as [[[] | e] w2]; [apply IH | discriminate].
Qed.

Lemma tasks_log_snoc tasks lines p extra :
  tasks_log tasks lines ->
  (forall w, p w = (Ok tt, prints extra w)) ->
  tasks_log (app tasks [p]) (app lines extra).
Proof.
  intros Htasks Hp w.
  rewrite (Promise_all_app _ _ _ _ (Htasks w)). cbn.
  rewrite Hp. now rewrite prints_app.
Qed.

Lemma dispatch_channel_run check env payload tasks channel w :
  match channel_request check env payload channel with
  | None =>
      dispatch_channel check env payload tasks channel w = (Ok tasks, w)
  | Some req =>
      exists p,
        dispatch_channel check env payload tasks channel w =
          (Ok (app tasks [p]), World.issue req w) /\
        caught_task req (next_outcome w) p
  end.
Proof.
  unfold channel_request, dispatch_channel.
  destruct (shouldChannelReceive channel check); cbn; [| reflexivity].
  destruct (AlertChannel.type channel).
  - destruct (truthy (MoltbotEnv.SLACK_WEBHOOK_URL env)) as [url |]; cbn;
      [| reflexivity].
    eexists. split; [reflexivity |].
    unfold caught_task, next_outcome, promise_catch. run_monad.
    destruct (World.net w (length (World.requests w))) as [st b | m | e]; cbn.
    + unfold Response.ok. cbn. destruct (_ && _); cbn.
      * exists []. split; reflexivity.
      * eexists [_]. split; reflexivity.
    + eexists [_]. split; reflexivity.
    + eexists [_]. split; reflexivity.
  - destruct (truthy (MoltbotEnv.TELEGRAM_BOT_TOKEN env)) as [tok |]; cbn;
      [| reflexivity].
    destruct (truthy (MoltbotEnv.MONITORING_TELEGRAM_CHAT_ID env)) as [chat |];
      cbn; [| reflexivity].
    eexists. split; [reflexivity |].
    unfold caught_task, next_outcome, promise_catch. run_monad.
    destruct (World.net w (length (World.requests w))) as [st b | m | e]; cbn.
    + unfold Response.ok. cbn. destruct (_ && _); cbn.
      * exists []. split; reflexivity.
      * eexists [_]. split; reflexivity.
    + eexists [_]. split; reflexivity.
    + eexists [_]. split; reflexivity.
  - destruct (truthy (MoltbotEnv.RESEND_API_KEY env)) as [key |]; cbn;
      [| reflexivity].
    destruct (truthy (MoltbotEnv.RESEND_FROM_EMAIL env)) as [from |]; cbn;
      [| reflexivity].
    destruct (truthy (MoltbotEnv.MONITORING_EMAIL_TO env)) as [to |]; cbn;
      [| reflexivity].
    eexists. split; [reflexivity |].
    unfold caught_task, next_outcome, promise_catch. run_monad.
    destruct (World.net w (length (World.requests w))) as [st b | m | e]; cbn.
    + unfold Response.ok. cbn. destruct (_ && _); cbn.
      * exists []. split; reflexivity.
      * eexists [_]. split; reflexivity.
    + eexists [_]. split; reflexivity.
    + eexists [_]. split; reflexivity.
Qed.

Lemma dispatch_loop check env payload channels :
  forall tasks lines w,
    tasks_log tasks lines ->
    exists tasks' lines',
      for_of (dispatch_channel check env payload) channels tasks w =
        (Ok tasks',
         issues (omap (channel_request check env payload) channels) w) /\
      tasks_log tasks' (app lines lines') /\
      map level_text lines' =
        map (fun r => (error, failure_text r))
            (undelivered (World.net w) (length (World.requests w))
               (omap (channel_request check env payload) channels)).
Proof.
  induction channels as [| c cs IH]; intros tasks lines w Htasks.
  - exists tasks, []. cbn. rewrite app_nil_r. easy.
  - cbn [for_of]. unfold bind.
    pose proof (dispatch_channel_run check env payload tasks c w) as Hrun.
    change (omap (channel_request check env payload) (c :: cs))
      with (match channel_request check env payload c with
            | Some r => r :: omap (channel_request check env payload) cs
            | None => omap (channel_request check env payload) cs
            end).
    destruct (channel_request check env payload c) as [req |].
    + destruct Hrun as (p & -> & extra & Hp & Hextra).
      destruct (IH (app tasks [p]) (app lines extra) (World.issue req w)
                  (tasks_log_snoc _ _ _ _ Htasks Hp))
        as (tasks' & lines' & Hloop & Hlog & Hlines).
      exists tasks', (app extra lines'). split; [exact Hloop |].
      split; [now rewrite app_assoc |].
      rewrite map_app, Hextra, Hlines. cbn [undelivered World.issue World.net
        World.requests].
      rewrite length_app. cbn [length]. rewrite Nat.add_1_r.
      fold (next_outcome w). destruct (delivered (next_outcome w)); reflexivity.
    + rewrite Hrun. apply IH. exact Htasks.
Qed.

Lemma dispatchAlerts_run alertType check checkState result config env w :
  let payload :=
    {| AlertPayload.type := alertType;
       AlertPayload.check := check;
       AlertPayload.checkState := checkState;
       AlertPayload.result := result;
       AlertPayload.timestamp :=
         Instant.iso (World.clock w (World.clock_reads w)) |} in
  let reqs :=
    omap (channel_request check env payload)
         (MonitoringConfig.channels config) in
  exists w' lines,
    dispatchAlerts alertType check checkState result config env w
      = (Ok tt, w') /\
    World.requests w' = app (World.requests w) reqs /\
    World.console w' = app (World.console w) lines /\
    map level_text lines =
      map (fun r => (error, failure_text r))
          (undelivered (World.net w) (length (World.requests w)) reqs) /\
    World.clock_reads w' = S (World.clock_reads w).
Proof.
  intros payload reqs.
  destruct (dispatch_loop check env payload (MonitoringConfig.channels config)
              [] [] (World.tick w)) as (tasks & lines & Hloop & Hlog & Hlines).
  { intros w0. reflexivity. }
  fold reqs in Hloop, Hlines.
  exists (prints lines (issues reqs (World.tick w))), lines.
  split.
  - unfold dispatchAlerts. run_monad. fold payload.
    unfold bind in Hloop. rewrite Hloop. apply Hlog.
  - destruct (prints_keeps lines (issues reqs (World.tick w)))
      as (Hreq & _ & _ & Hreads).
    destruct (issues_keeps reqs (World.tick w)) as (Hcon & _ & _ & Hreads').
    rewrite Hreq, issues_requests, prints_console, Hcon, Hreads, Hreads'.
    repeat split; try reflexivity. exact Hlines.
Qed.


(** Two of three senders fail: the three requests are issued all the same,
    two error lines are printed, the dispatch resolves. *)
Example dispatch_survives_failing_channels :
  let run :=
    dispatchAlerts failure (test_check (Some ["production"; "web"]))
      (createEmptyCheckState "test") failureResult all_channels all_bindings
      (quiet_world failing_senders) in
  fst run = Ok tt /\
  length (World.requests (snd run)) = 3%nat /\
  World.console (snd run) =
    [ LogLine.mk error "[monitoring] Slack alert failed:"
        (Some (ErrorObj "Slack webhook failed: 500"));
      LogLine.mk error "[monitoring] Telegram alert failed:"
        (Some (ErrorObj "Network connection lost.")) ].
Proof. cbn. repeat split; reflexivity. Qed.

(** * The orchestrator loop *)

Lemma transition_history now state result threshold :
  CheckState.history
    (Transition.newState (computeTransition now state result threshold))
  = Some (CheckState.history state ?? []).
Proof.
  unfold computeTransition.
  destruct (CheckResult.success result); [reflexivity |].
  destruct (_ >=? _)%Z; reflexivity.
Qed.

Lemma evaluate_check_run config env checks check w :
  let timeoutMs :=
    CheckConfig.timeoutMs check ?? MonitoringConfig.defaultTimeoutMs config in
  exists result w',
    runCheck check (MoltbotEnv.WORKER_URL env) timeoutMs w =
      (Ok result,
       after_probe check (MoltbotEnv.WORKER_URL env) timeoutMs w) /\
    evaluate_check config env checks check w =
      (Ok (<[CheckConfig.id check := evaluated config checks check result w]>
             checks), w').
Proof.
  intros timeoutMs.
  destruct (runCheck_returns check (MoltbotEnv.WORKER_URL env) timeoutMs w)
    as (result & Hrun & _).
  exists result.
  unfold evaluate_check. fold timeoutMs. unfold bind at 1. rewrite Hrun.
  cbv beta iota zeta delta
    [bind ret Date_toISOString read_clock console_log console_write
     record_history].
  cbn [World.clock World.clock_reads World.tick World.print World.issue
       after_probe].
  rewrite transition_history.
  cbv beta iota.
  match goal with
  | |- context [Transition.alertType ?tr] =>
      destruct (Transition.alertType tr) as [alertType |]
  end.
  - cbv beta iota delta [try_catch].
    match goal with
    | |- context [dispatchAlerts ?a ?c ?s ?r ?cfg ?e ?w0] =>
        destruct (dispatchAlerts_run a c s r cfg e w0)
          as (w' & lines & -> & _)
    end.
    eexists. split; reflexivity.
  - eexists. split; reflexivity.
Qed.

Lemma push_and_trim_slice history entry :
  push_and_trim history entry = slice_last 288 (app history [entry]).
Proof.
  unfold push_and_trim, slice_last.
  destruct (Nat.ltb_spec 288 (length (app history [entry]))) as [Hlt | Hle];
    [reflexivity |].
  replace (length (app history [entry]) - 288)%nat with 0%nat by lia.
  reflexivity.
Qed.

Lemma slice_last_length {A} (n : nat) (arr : list A) :
  (length (slice_last n arr) <= n)%nat.
Proof. unfold slice_last. rewrite length_drop. lia. Qed.

Lemma slice_last_below history (entry : HistoryEntry.t) :
  (length history < 288)%nat ->
  slice_last 288 (app history [entry]) = app history [entry].
Proof.
  intros Hlen. unfold slice_last. rewrite length_app. cbn [length].
  replace (length history + 1 - 288)%nat with 0%nat by lia. reflexivity.
Qed.

Lemma slice_last_full history (entry : HistoryEntry.t) :
  length history = 288%nat ->
  slice_last 288 (app history [entry]) = app (tl history) [entry].
Proof.
  intros Hlen. unfold slice_last. rewrite length_app, Hlen.
  destruct history as [| oldest rest]; [discriminate |]. reflexivity.
Qed.

(** C4 -- one evaluation of a check stores, under the check's id, a state
    whose history is the prior history with exactly one entry appended
    (the time of the append, the resulting status, the probe's elapsed
    time, its error or null), cut to its last 288 entries: it never holds
    more than 288; from 288 entries the oldest one is dropped and the
    others keep their order. *)
Theorem evaluation_records_one_entry config env checks check w :
  let id := CheckConfig.id check in
  let timeoutMs :=
    CheckConfig.timeoutMs check ?? MonitoringConfig.defaultTimeoutMs config in
  let old :=
    CheckState.history (checks !! id ?? createEmptyCheckState id) ?? [] in
  exists result w1 newState w',
    runCheck check (MoltbotEnv.WORKER_URL env) timeoutMs w = (Ok result, w1) /\
    evaluate_check config env checks check w =
      (Ok (<[id := newState]> checks), w') /\
    let entry :=
      {| HistoryEntry.timestamp :=
           Instant.iso (World.clock w (3 + World.clock_reads w));
         HistoryEntry.status := CheckState.status newState;
         HistoryEntry.responseTimeMs := CheckResult.responseTimeMs result;
         HistoryEntry.error := CheckResult.error result |} in
    CheckState.history newState = Some (slice_last 288 (app old [entry])) /\
    (length (slice_last 288 (app old [entry])) <= 288)%nat /\
    ((length old < 288)%nat ->
       CheckState.history newState = Some (app old [entry])) /\
    (length old = 288%nat ->
       CheckState.history newState = Some (app (tl old) [entry])).
Proof.
  intros id timeoutMs old.
  destruct (evaluate_check_run config env checks check w)
    as (result & w' & Hrun & Heval).
  exists result, (after_probe check (MoltbotEnv.WORKER_URL env) timeoutMs w),
    (evaluated config checks check result w), w'.
  split; [exact Hrun |]. split; [exact Heval |].
  unfold evaluated. cbn [CheckState.history CheckState.status with_history].
  fold id. fold old. rewrite push_and_trim_slice.
  split; [reflexivity |]. split; [apply slice_last_length |].
  split; intros Hlen.
  - now rewrite slice_last_below.
  - now rewrite slice_last_full.
Qed.

Lemma evaluation_records_one_entry_witness :
  let old :=
    CheckState.history
      (full_checks !! "campermate-website"
         ?? createEmptyCheckState "campermate-website") ?? [] in
  length old = 288%nat /\
  exists result newState w',
    evaluate_check monitoringConfig no_bindings full_checks campermate
                   (quiet_world (fun _ => Responded 200 "ok")) =
      (Ok (<["campermate-website" := newState]> full_checks), w') /\
    CheckState.history newState =
      Some (app (tl old)
              [HistoryEntry.mk "T3" (CheckState.status newState)
                 (CheckResult.responseTimeMs result)
                 (CheckResult.error result)]).
Proof.
  intros old.
  assert (Hlen : length old = 288%nat) by (vm_compute; reflexivity).
  split; [exact Hlen |].
  destruct (evaluation_records_one_entry monitoringConfig no_bindings
              full_checks campermate
              (quiet_world (fun _ => Responded 200 "ok")))
    as (result & w1 & newState & w' & Hrun & Heval & _ & _ & _ & Hfull).
  exists result, newState, w'.
  split; [exact Heval | exact (Hfull Hlen)].
Defined.

Example full_history_drops_oldest :
  exists checks' w' newState,
    evaluate_check monitoringConfig no_bindings full_checks campermate
                   (quiet_world (fun _ => Responded 200 "ok")) =
      (Ok checks', w') /\
    checks' !! "campermate-website" = Some newState /\
    CheckState.history newState =
      Some (app (tl full_history) [HistoryEntry.mk "T3" healthy 1000 None]).
Proof.
  eexists. eexists. eexists.
  split; [vm_compute; reflexivity |].
  split; vm_compute; reflexivity.
Qed.

Lemma evaluated_bounded config checks check result w :
  bounded_history (evaluated config checks check result w).
Proof.
  unfold bounded_history, evaluated. cbn [CheckState.history with_history].
  eexists. split; [reflexivity |].
  rewrite push_and_trim_slice. apply slice_last_length.
Qed.

(** The loop over the configured checks never throws; every state it
    stores has a bounded history, the states of other targets are left as
    they were, and every configured check ends with a state. *)
Lemma run_checks_bounded config env cs :
  forall (checks : gmap string CheckState.t) w,
    exists (checks' : gmap string CheckState.t) w',
      for_of (evaluate_check config env) cs checks w = (Ok checks', w') /\
      (forall id st, checks' !! id = Some st ->
         checks !! id = Some st \/ bounded_history st) /\
      (forall id, is_Some (checks !! id) -> is_Some (checks' !! id)) /\
      (forall c, In c cs ->
         exists st, checks' !! CheckConfig.id c = Some st /\
                    bounded_history st).
Proof.
  induction cs as [| c cs IH]; intros checks w.
  - exists checks, w. split; [reflexivity |].
    split; [intros id st H; now left |]. split; [easy | intros c []].
  - destruct (evaluate_check_run config env checks c w)
      as (result & w1 & _ & Heval).
    destruct (IH (<[CheckConfig.id c := evaluated config checks c result w]>
                    checks) w1)
      as (checks' & w' & Hloop & Hstates & Hdom & Hall).
    exists checks', w'.
    split; [cbn [for_of]; unfold bind; now rewrite Heval |].
    assert (Hkept : forall id st, checks' !! id = Some st ->
              checks !! id = Some st \/ bounded_history st).
    { intros id st Hst. destruct (Hstates id st Hst) as [Hin | Hb];
        [| now right].
      destruct (decide (CheckConfig.id c = id)) as [<- | Hne].
      - rewrite lookup_insert_eq in Hin. injection Hin as <-.
        right. apply evaluated_bounded.
      - rewrite lookup_insert_ne in Hin by exact Hne. now left. }
    split; [exact Hkept |]. split.
    + intros id Hsome. apply Hdom.
      destruct (decide (CheckConfig.id c = id)) as [<- | Hne].
      * rewrite lookup_insert_eq. eauto.
      * now rewrite lookup_insert_ne.
    + intros c' [<- | Hin]; [| now apply Hall].
      destruct (Hdom (CheckConfig.id c)) as [st Hst].
      { rewrite lookup_insert_eq. eauto. }
      exists st. split; [exact Hst |].
      destruct (Hstates _ _ Hst) as [Hsame | Hb]; [| exact Hb].
      rewrite lookup_insert_eq in Hsame. injection Hsame as <-.
      apply evaluated_bounded.
Qed.

(** C10 -- the new state of a transition is [healthy], [degraded] or
    [unhealthy], never [unknown]; [unknown] is the status of the empty
    state created for a target not yet evaluated; and every evaluation of
    the orchestrator stores, for its check, a state that is not
    [unknown]. *)
Theorem unknown_only_before_first_evaluation :
  (forall now state result threshold,
     let st := CheckState.status
                 (Transition.newState
                    (computeTransition now state result threshold)) in
     (st = healthy \/ st = degraded \/ st = unhealthy) /\ st <> unknown) /\
  (forall id, CheckState.status (createEmptyCheckState id) = unknown) /\
  (forall config env checks check w,
     exists newState w',
       evaluate_check config env checks check w =
         (Ok (<[CheckConfig.id check := newState]> checks), w') /\
       CheckState.status newState <> unknown).
Proof.
  split; [| split].
  - intros now state result threshold st.
    pose proof (transition_status_cases now state result threshold) as Hcases.
    fold st in Hcases. split; [exact Hcases |].
    destruct Hcases as [-> | [-> | ->]]; discriminate.
  - reflexivity.
  - intros config env checks check w.
    destruct (evaluate_check_run config env checks check w)
      as (result & w' & _ & Heval).
    exists (evaluated config checks check result w), w'.
    split; [exact Heval |].
    unfold evaluated. cbn [CheckState.status with_history].
    match goal with
    | |- CheckState.status
           (Transition.newState (computeTransition ?n ?s ?r ?t)) <> _ =>
        destruct (transition_status_cases n s r t) as [Hc | [Hc | Hc]];
          cbv zeta in Hc; rewrite Hc; discriminate
    end.
Qed.
(** * The life of a target *)

Lemma slice_last_snoc {A} (n : nat) (l : list A) (x : A) :
  (0 < n)%nat ->
  slice_last n (app l [x]) = app (slice_last (n - 1) l) [x].
Proof.
  intros Hn. unfold slice_last. rewrite length_app. cbn [length].
  replace (length l + 1 - n)%nat with (length l - (n - 1))%nat by lia.
  rewrite drop_app_le by lia. reflexivity.
Qed.

Lemma push_and_trim_last history entry :
  last (push_and_trim history entry) = Some entry.
Proof.
  rewrite push_and_trim_slice, slice_last_snoc by lia. apply last_snoc.
Qed.

Lemma push_and_trim_Forall (P : HistoryEntry.t -> Prop) history entry :
  Forall P history -> P entry -> Forall P (push_and_trim history entry).
Proof.
  intros Hh He. rewrite push_and_trim_slice, slice_last_snoc by lia.
  apply Forall_app. split; [| now constructor].
  unfold slice_last. now apply Forall_drop.
Qed.

(** X1 -- every state a target goes through from its first observation on
    is well formed: it carries the target's id; its failure counter is not
    negative and is 0 exactly when the status is [unknown] or [healthy];
    its history is present and at most 288 long; while [unknown] it has no
    history and no last check; afterwards its newest history entry shows
    its status; no history entry is [unknown]; and a [healthy] state was
    last checked at its last success. *)
Theorem reachable_well_formed id state :
  reachable id state -> WellFormed.t id state.
Proof.
  induction 1 as [| state ev Hreach IH].
  - split; cbn; try easy.
    + split; [now left | reflexivity].
    + exists []. split; [reflexivity | cbn; lia].
  - destruct IH as [Hid Hcount Hzero Hbound Hfresh Hnewest Hentries Htime].
    pose proof (transition_status_cases (Evaluation.now ev) state
                  (Evaluation.result ev) (Evaluation.threshold ev)) as Hcases.
    cbv zeta in Hcases.
    assert (Hnot : CheckState.status (Evaluation.apply state ev) <> unknown).
    { unfold Evaluation.apply. cbn [CheckState.status with_history].
      destruct Hcases as [-> | [-> | ->]]; discriminate. }
    split.
    + unfold Evaluation.apply, computeTransition.
      destruct (CheckResult.success _); [exact Hid |].
      destruct (_ >=? _)%Z; exact Hid.
    + unfold Evaluation.apply, computeTransition.
      destruct (CheckResult.success _); [cbn; lia |].
      destruct (_ >=? _)%Z; cbn; lia.
    + unfold Evaluation.apply, computeTransition.
      destruct (CheckResult.success _); cbn.
      * split; [now right | reflexivity].
      * destruct (_ >=? _)%Z; cbn; (split; [lia | intros [|]; discriminate]).
    + unfold bounded_history, Evaluation.apply.
      cbn [CheckState.history with_history].
      eexists. split; [reflexivity |].
      rewrite push_and_trim_slice. apply slice_last_length.
    + intros Hunk. now destruct Hnot.
    + intros _. unfold Evaluation.apply.
      cbn [CheckState.history CheckState.status with_history nullish].
      eexists. split; [apply push_and_trim_last | reflexivity].
    + unfold Evaluation.apply.
      cbn [CheckState.history with_history nullish].
      apply push_and_trim_Forall; [exact Hentries |].
      cbn [HistoryEntry.status].
      destruct Hcases as [-> | [-> | ->]]; discriminate.
    + unfold Evaluation.apply, computeTransition.
      destruct (CheckResult.success _); cbn; [easy |].
      destruct (_ >=? _)%Z; cbn; discriminate.
Qed.

Lemma reachable_well_formed_witness :
  WellFormed.t "test"
    (Evaluation.apply (createEmptyCheckState "test")
       (Evaluation.mk failureResult 2 "t1" "t2")).
Proof.
  apply reachable_well_formed. apply reachable_step. apply reachable_empty.
Defined.

Lemma apply_failure state ev :
  CheckResult.success (Evaluation.result ev) = false ->
  let next := Evaluation.apply state ev in
  let failures := (CheckState.consecutiveFailures state + 1)%Z in
  CheckState.consecutiveFailures next = failures /\
  CheckState.status next =
    (if (Evaluation.threshold ev <=? failures)%Z then unhealthy else degraded) /\
  Evaluation.alert state ev =
    (if (Evaluation.threshold ev <=? failures)%Z
     then if bool_decide (CheckState.status state = unhealthy)
          then None else Some failure
     else None) /\
  CheckState.lastError next = CheckResult.error (Evaluation.result ev).
Proof.
  intros Hfail. unfold Evaluation.apply, Evaluation.alert, computeTransition.
  rewrite Hfail. rewrite Z.geb_leb.
  destruct (_ <=? _)%Z; cbn; repeat split; reflexivity.
Qed.

Lemma apply_success state ev :
  CheckResult.success (Evaluation.result ev) = true ->
  let next := Evaluation.apply state ev in
  CheckState.consecutiveFailures next = 0%Z /\
  CheckState.status next = healthy /\
  Evaluation.alert state ev =
    (if bool_decide (CheckState.status state = unhealthy)
     then Some recovery else None) /\
  CheckState.lastError next = CheckState.lastError state.
Proof.
  intros Hok. unfold Evaluation.apply, Evaluation.alert, computeTransition.
  rewrite Hok. cbn. repeat split; reflexivity.
Qed.

(** A second [failure] alert without a [recovery] in between needs a
    threshold that was raised during the outage: at 2 the target is
    [unhealthy] after two failures; at 5 the third failure makes it
    [degraded] again, and the fifth alerts once more. *)
Example raised_threshold_alerts_twice :
  let fail th := Evaluation.mk failureResult th "now" "now" in
  alerts_of (createEmptyCheckState "test")
    [fail 2%Z; fail 2%Z; fail 5%Z; fail 5%Z; fail 5%Z] = [failure; failure].
Proof. reflexivity. Qed.

(** X2 -- under one threshold, from a state that is not [unhealthy] below
    that threshold, the alerts of any sequence of evaluations take turns:
    a [failure] alert is always followed by a [recovery] alert before the
    next [failure] alert, and the first alert is a [recovery] exactly when
    the sequence starts [unhealthy]. *)
Theorem alerts_take_turns threshold evs :
  forall state,
    Forall (fun ev => Evaluation.threshold ev = threshold) evs ->
    (CheckState.status state = unhealthy ->
     (threshold <= CheckState.consecutiveFailures state + 1)%Z) ->
    takes_turns
      (if bool_decide (CheckState.status state = unhealthy)
       then recovery else failure)
      (alerts_of state evs).
Proof.
  induction evs as [| ev evs IH]; intros state Hth Hinv; [exact I |].
  apply Forall_cons in Hth as [Hev Hrest].
  cbn [alerts_of].
  destruct (CheckResult.success (Evaluation.result ev)) eqn:Hres.
  - destruct (apply_success state ev Hres) as (Hcf & Hst & -> & _).
    specialize (IH (Evaluation.apply state ev) Hrest).
    rewrite Hst in IH. rewrite bool_decide_eq_false_2 in IH by discriminate.
    case_bool_decide; cbn; [split; [reflexivity |] |]; apply IH; discriminate.
  - destruct (apply_failure state ev Hres) as (Hcf & Hst & -> & _).
    specialize (IH (Evaluation.apply state ev) Hrest).
    rewrite Hst, Hcf, Hev in IH. rewrite Hev.
    destruct (Z.leb_spec threshold (CheckState.consecutiveFailures state + 1))
      as [Hge | Hlt].
    + rewrite bool_decide_eq_true_2 in IH by reflexivity.
      case_bool_decide; cbn; [| split; [reflexivity |]]; apply IH; lia.
    + rewrite bool_decide_eq_false_2 in IH by discriminate.
      case_bool_decide as Hprior; [specialize (Hinv Hprior); lia |].
      apply IH. discriminate.
Qed.

Lemma alerts_take_turns_witness :
  let fail := Evaluation.mk failureResult 2 "now" "now" in
  let pass := Evaluation.mk successResult 2 "now" "now" in
  takes_turns failure
    (alerts_of (createEmptyCheckState "test")
       [fail; fail; fail; pass; pass; fail; fail; pass]) /\
  alerts_of (createEmptyCheckState "test")
    [fail; fail; fail; pass; pass; fail; fail; pass]
  = [failure; recovery; failure; recovery].
Proof.
  intros fail pass. split; [| reflexivity].
  apply (alerts_take_turns 2
           [fail; fail; fail; pass; pass; fail; fail; pass]
           (createEmptyCheckState "test")).
  - repeat constructor.
  - discriminate.
Defined.



(** X4 -- the error of the last failed probe stays in [lastError] through
    every successful probe that follows it: a recovered target still shows
    its last error. *)
Theorem lastError_survives_recovery state failed passes :
  CheckResult.success (Evaluation.result failed) = false ->
  Forall (fun ev => CheckResult.success (Evaluation.result ev) = true) passes ->
  CheckState.lastError (state_after state (failed :: passes)) =
    CheckResult.error (Evaluation.result failed).
Proof.
  intros Hfail Hpasses.
  change (state_after state (failed :: passes))
    with (state_after (Evaluation.apply state failed) passes).
  destruct (apply_failure state failed Hfail) as (_ & _ & _ & <-).
  generalize (Evaluation.apply state failed) as s.
  induction Hpasses as [| ev passes Hok _ IH]; intros s; [reflexivity |].
  change (state_after s (ev :: passes))
    with (state_after (Evaluation.apply s ev) passes).
  rewrite IH. now destruct (apply_success s ev Hok) as (_ & _ & _ & ->).
Qed.

Lemma lastError_survives_recovery_witness :
  let fail := Evaluation.mk failureResult 2 "now" "now" in
  let pass := Evaluation.mk successResult 2 "now" "now" in
  CheckState.lastError
    (state_after (createEmptyCheckState "test") [fail; pass; pass])
  = Some "Expected status 200, got 503".
Proof.
  intros fail pass.
  apply (lastError_survives_recovery (createEmptyCheckState "test") fail
           [pass; pass]).
  - reflexivity.
  - repeat constructor.
Defined.

(** * The probe runner, continued *)

(** X5 -- [runCheck] never throws: it reads the clock twice, issues one
    request and returns a result that carries the check's id and the time
    between the two clock reads; the result's error is null exactly when
    it is a success, and its status code is null exactly when the fetch
    was rejected. *)
Theorem runCheck_result_shape check workerUrl timeoutMs w :
  exists result,
    runCheck check workerUrl timeoutMs w =
      (Ok result, after_probe check workerUrl timeoutMs w) /\
    CheckResult.id result = CheckConfig.id check /\
    CheckResult.responseTimeMs result = elapsed w /\
    (CheckResult.success result = true <-> CheckResult.error result = None) /\
    (CheckResult.statusCode result = None <->
       rejection (next_outcome w) <> None).
Proof.
  destruct (next_outcome w) as [s b | m | e] eqn:Hnet.
  - eexists. split; [apply (runCheck_responded _ _ _ _ _ _ Hnet) |].
    cbn. repeat split; try discriminate; try congruence.
    + destruct (s =? _)%Z; [reflexivity | discriminate].
    + destruct (s =? _)%Z; [reflexivity | discriminate].
  - eexists.
    split; [apply (runCheck_rejected _ _ _ _ (ErrorObj m)); now rewrite Hnet |].
    cbn. repeat split; try discriminate; try congruence.
  - eexists.
    split; [apply (runCheck_rejected _ _ _ _ e); now rewrite Hnet |].
    cbn. repeat split; try discriminate; try congruence.
Qed.

(** * Placeholder resolution *)

Lemma append_cons (c : ascii) (a b : string) :
  String c a ++ b = String c (a ++ b).
Proof. reflexivity. Qed.

Lemma append_nil (b : string) : EmptyString ++ b = b.
Proof. reflexivity. Qed.

Lemma prefix_app_same (n rest : string) : String.prefix n (n ++ rest) = true.
Proof.
  induction n as [| c n IH]; [now destruct rest |].
  change (String.prefix (String c n) (String c n ++ rest))
    with (if Ascii.ascii_dec c c then String.prefix n (n ++ rest) else false).
  destruct (Ascii.ascii_dec c c); [exact IH | congruence].
Qed.

Lemma string_drop_app (n rest : string) :
  string_drop (String.length n) (n ++ rest) = rest.
Proof. induction n as [| c n IH]; [reflexivity | exact IH]. Qed.

Lemma prefix_within (n s t : string) :
  String.prefix n (s ++ t) = true ->
  (String.length n <= String.length s)%nat ->
  String.prefix n s = true.
Proof.
  revert s. induction n as [| c n IH]; intros s Hpre Hlen.
  - now destruct s.
  - destruct s as [| d s]; [cbn in Hlen; lia |].
    change (String.prefix (String c n) (String d s ++ t))
      with (if Ascii.ascii_dec c d then String.prefix n (s ++ t) else false)
      in Hpre.
    change (String.prefix (String c n) (String d s))
      with (if Ascii.ascii_dec c d then String.prefix n s else false).
    destruct (Ascii.ascii_dec c d); [| discriminate].
    apply IH; [exact Hpre | cbn in Hlen; lia].
Qed.

Lemma string_removelast_app (n : string) :
  n <> EmptyString ->
  exists c, n = string_removelast n ++ String c EmptyString /\
            String.length n = S (String.length (string_removelast n)).
Proof.
  induction n as [| d n IH]; [congruence |]. intros _.
  destruct n as [| e n].
  - exists d. split; reflexivity.
  - destruct IH as (c & Heq & Hlen); [discriminate |].
    exists c. split.
    + change (String d (String e n) =
              String d (string_removelast (String e n) ++ String c EmptyString)).
      now f_equal.
    + change (S (String.length (String e n)) =
              S (S (String.length (string_removelast (String e n))))).
      now rewrite Hlen.
Qed.

Lemma string_app_assoc (a b c : string) : (a ++ b) ++ c = a ++ (b ++ c).
Proof.
  induction a as [| x a IH]; rewrite ?append_cons, ?append_nil;
    cbn [String.length]; [reflexivity | now f_equal].
Qed.

Lemma string_length_app (a b : string) :
  String.length (a ++ b) = (String.length a + String.length b)%nat.
Proof.
  induction a as [| x a IH]; rewrite ?append_cons, ?append_nil;
    cbn [String.length]; [reflexivity | now rewrite IH].
Qed.

Lemma split_first_found (needle before after : string) :
  needle <> EmptyString ->
  starts_within needle before = false ->
  split_first needle (before ++ needle ++ after) = Some (before, after).
Proof.
  intros Hne. unfold starts_within.
  induction before as [| c before IH]; intros Hfirst.
  - rewrite append_nil. destruct needle as [| n0 needle]; [congruence |].
    rewrite append_cons. cbn [split_first]. rewrite <- append_cons.
    rewrite prefix_app_same, string_drop_app. reflexivity.
  - rewrite append_cons in Hfirst. cbn [includes] in Hfirst.
    apply orb_false_iff in Hfirst as [Hpre Hrest].
    rewrite append_cons. cbn [split_first].
    destruct (String.prefix needle (String c (before ++ needle ++ after)))
      eqn:Hhere.
    + exfalso.
      destruct (string_removelast_app needle Hne) as (l & Heq & Hlen).
      rewrite Heq in Hhere at 2.
      rewrite string_app_assoc, <- append_cons, <- string_app_assoc in Hhere.
      apply prefix_within in Hhere.
      * rewrite append_cons in Hhere. congruence.
      * rewrite string_length_app, Hlen. cbn [String.length]. lia.
    + now rewrite (IH Hrest).
Qed.

Lemma split_first_absent (needle hay : string) :
  includes needle hay = false -> split_first needle hay = None.
Proof.
  induction hay as [| c hay IH]; cbn [includes split_first]; intros H;
    apply orb_false_iff in H as [-> Hrest]; [reflexivity |].
  now rewrite (IH Hrest).
Qed.

Lemma expand_replacement_plain matched before after replacement :
  occurs "$" replacement = false ->
  expand_replacement matched before after replacement = replacement.
Proof.
  induction replacement as [| c r IH]; [reflexivity |].
  cbn [occurs]. intros H. apply orb_false_iff in H as [Hc Hr].
  specialize (IH Hr).
  destruct (Ascii.eqb_spec c "$") as [-> | Hne]; [discriminate |].
  cbn [expand_replacement].
  destruct c as [[] [] [] [] [] [] [] []]; try (now rewrite IH);
    now destruct Hne.
Qed.

Lemma strip_trailing_slashes_occurs c s :
  occurs c s = false -> occurs c (strip_trailing_slashes s) = false.
Proof.
  induction s as [| d s IH]; [reflexivity |].
  cbn [occurs strip_trailing_slashes]. intros H.
  apply orb_false_iff in H as [Hd Hs]. specialize (IH Hs).
  destruct (strip_trailing_slashes s) as [| e r].
  - destruct (Ascii.eqb d "/"); cbn; [reflexivity | now rewrite Hd].
  - cbn [occurs] in IH |- *. now rewrite Hd.
Qed.

(** X6 -- a URL that does not mention the placeholder is returned as it
    is, whatever the worker URL. *)
Theorem resolveCheckUrl_without_placeholder url workerUrl :
  includes WORKER_URL_placeholder url = false ->
  resolveCheckUrl url workerUrl = url.
Proof.
  intros Habsent. unfold resolveCheckUrl, str_replace.
  rewrite (split_first_absent _ _ Habsent).
  now destruct (truthy workerUrl).
Qed.

Lemma resolveCheckUrl_without_placeholder_witness :
  resolveCheckUrl "https://www.campermate.com" (Some "https://w.example/") =
    "https://www.campermate.com".
Proof.
  apply resolveCheckUrl_without_placeholder. reflexivity.
Defined.

(** X7 -- only the first placeholder of a URL is replaced: by
    http://localhost:8787 when the worker URL is missing or empty, and
    otherwise by the worker URL without its trailing slashes, provided the
    worker URL holds no dollar sign. *)
Theorem resolveCheckUrl_first_placeholder before after workerUrl :
  starts_within WORKER_URL_placeholder before = false ->
  let url := before ++ WORKER_URL_placeholder ++ after in
  (truthy workerUrl = None ->
     resolveCheckUrl url workerUrl = before ++ "http://localhost:8787" ++ after) /\
  (forall base, truthy workerUrl = Some base -> occurs "$" base = false ->
     resolveCheckUrl url workerUrl =
       before ++ strip_trailing_slashes base ++ after).
Proof.
  intros Hfirst url. subst url. unfold resolveCheckUrl, str_replace.
  rewrite (split_first_found WORKER_URL_placeholder before after)
    by (discriminate || exact Hfirst).
  split.
  - intros ->. reflexivity.
  - intros base -> Hplain.
    rewrite expand_replacement_plain; [reflexivity |].
    now apply strip_trailing_slashes_occurs.
Qed.

Lemma resolveCheckUrl_first_placeholder_witness :
  resolveCheckUrl "{{WORKER_URL}}/sandbox-health?next={{WORKER_URL}}"
                  (Some "https://w.example//")
  = "https://w.example/sandbox-health?next={{WORKER_URL}}".
Proof.
  destruct (resolveCheckUrl_first_placeholder ""
              "/sandbox-health?next={{WORKER_URL}}"
              (Some "https://w.example//") eq_refl) as [_ Hbase].
  apply (Hbase "https://w.example//"); reflexivity.
Defined.

(** A dollar sign in the worker URL is read as a replacement pattern: [$&]
    brings the placeholder back. *)
Example resolveCheckUrl_dollar_pattern :
  resolveCheckUrl "{{WORKER_URL}}/x" (Some "https://w.example/$&") =
    "https://w.example/{{WORKER_URL}}/x".
Proof. reflexivity. Qed.

(** X8 -- stripping removes exactly the trailing slashes: the text is the
    stripped text followed by slashes only, and the stripped text does not
    end with a slash. *)
Theorem strip_trailing_slashes_exact s :
  (exists k, s = strip_trailing_slashes s ++ slashes k) /\
  (forall t, strip_trailing_slashes s <> t ++ "/").
Proof.
  induction s as [| c s [[k Hk] Hend]].
  - split; [now exists 0%nat |].
    intros [| d t]; rewrite ?append_nil, ?append_cons; discriminate.
  - cbn [strip_trailing_slashes].
    destruct (strip_trailing_slashes s) as [| d r] eqn:Hs.
    + rewrite append_nil in Hk.
      destruct (Ascii.eqb_spec c "/") as [-> | Hc].
      * split; [exists (S k); rewrite append_nil; cbn [slashes]; now f_equal |].
        intros [| d t]; rewrite ?append_nil, ?append_cons; discriminate.
      * split;
          [exists k; rewrite append_cons, append_nil; now f_equal |].
        intros [| d t]; rewrite ?append_nil, ?append_cons.
        -- intros [= Heq]. now destruct Hc.
        -- intros [= _ Heq].
           destruct t; rewrite ?append_nil, ?append_cons in Heq; discriminate.
    + split; [exists k; rewrite append_cons; now f_equal |].
      intros [| e t]; rewrite ?append_nil, ?append_cons; [discriminate |].
      intros [= _ Heq]. exact (Hend t Heq).
Qed.

(** * HTML escaping in the channel messages *)

Lemma replace_all_app c replacement a b :
  replace_all c replacement (a ++ b) =
  replace_all c replacement a ++ replace_all c replacement b.
Proof.
  induction a as [| d a IH]; [reflexivity |].
  rewrite append_cons. cbn [replace_all].
  destruct (Ascii.eqb d c).
  - now rewrite IH, string_app_assoc.
  - now rewrite IH, append_cons.
Qed.

Lemma occurs_app c a b : occurs c (a ++ b) = occurs c a || occurs c b.
Proof.
  induction a as [| d a IH]; [reflexivity |].
  rewrite append_cons. cbn [occurs]. now rewrite IH, orb_assoc.
Qed.

Lemma escape_char_cases quotes c :
  (c = "&"%char /\ escape_char quotes c = "&amp;") \/
  (c = "<"%char /\ escape_char quotes c = "&lt;") \/
  (c = ">"%char /\ escape_char quotes c = "&gt;") \/
  (c = double_quote /\ quotes = true /\ escape_char quotes c = "&quot;") \/
  (c <> "&"%char /\ c <> "<"%char /\ c <> ">"%char /\
   (quotes = true -> c <> double_quote) /\
   escape_char quotes c = String c EmptyString).
Proof.
  unfold escape_char.
  destruct (Ascii.eqb_spec c "&") as [-> | Hamp]; [now left |].
  destruct (Ascii.eqb_spec c "<") as [-> | Hlt]; [right; now left |].
  destruct (Ascii.eqb_spec c ">") as [-> | Hgt]; [right; right; now left |].
  destruct quotes; cbn [andb].
  - destruct (Ascii.eqb_spec c double_quote) as [-> | Hq];
      [right; right; right; now left |].
    right; right; right; right. easy.
  - right; right; right; right. easy.
Qed.

Lemma replace_all_other c replacement d rest :
  d <> c ->
  replace_all c replacement (String d rest) =
  String d (replace_all c replacement rest).
Proof.
  intros Hne. cbn [replace_all].
  destruct (Ascii.eqb_spec d c); [congruence | reflexivity].
Qed.

Lemma telegram_escape_each text :
  Telegram.escapeHtml text = escape_each false text.
Proof.
  unfold Telegram.escapeHtml.
  induction text as [| c text IH]; [reflexivity |].
  cbn [escape_each]. rewrite <- IH.
  destruct (escape_char_cases false c)
    as [[-> ->] | [[-> ->] | [[-> ->] | [(_ & Hq & _) | (Ha & Hl & Hg & _ & ->)]]]];
    try discriminate.
  - change (replace_all "&" "&amp;" (String "&" text))
      with ("&amp;" ++ replace_all "&" "&amp;" text).
    now rewrite !replace_all_app.
  - rewrite (replace_all_other "&") by discriminate.
    change (replace_all "<" "&lt;" (String "<" (replace_all "&" "&amp;" text)))
      with ("&lt;" ++ replace_all "<" "&lt;" (replace_all "&" "&amp;" text)).
    now rewrite replace_all_app.
  - rewrite (replace_all_other "&"), (replace_all_other "<") by discriminate.
    reflexivity.
  - now rewrite !replace_all_other by assumption.
Qed.

Lemma email_escape_each text :
  Email.escapeHtml text = escape_each true text.
Proof.
  unfold Email.escapeHtml.
  induction text as [| c text IH]; [reflexivity |].
  cbn [escape_each]. rewrite <- IH.
  destruct (escape_char_cases true c)
    as [[-> ->] | [[-> ->] | [[-> ->] | [(-> & _ & ->) | (Ha & Hl & Hg & Hq & ->)]]]].
  - change (replace_all "&" "&amp;" (String "&" text))
      with ("&amp;" ++ replace_all "&" "&amp;" text).
    now rewrite !replace_all_app.
  - rewrite (replace_all_other "&") by discriminate.
    change (replace_all "<" "&lt;" (String "<" (replace_all "&" "&amp;" text)))
      with ("&lt;" ++ replace_all "<" "&lt;" (replace_all "&" "&amp;" text)).
    now rewrite !replace_all_app.
  - rewrite (replace_all_other "&"), (replace_all_other "<") by discriminate.
    change (replace_all ">" "&gt;"
              (String ">" (replace_all "<" "&lt;" (replace_all "&" "&amp;" text))))
      with ("&gt;" ++ replace_all ">" "&gt;"
                        (replace_all "<" "&lt;" (replace_all "&" "&amp;" text))).
    now rewrite replace_all_app.
  - rewrite (replace_all_other "&"), (replace_all_other "<"),
      (replace_all_other ">") by discriminate.
    reflexivity.
  - rewrite !replace_all_other by auto. reflexivity.
Qed.

Lemma escape_each_clean quotes text :
  occurs "<" (escape_each quotes text) = false /\
  occurs ">" (escape_each quotes text) = false /\
  (quotes = true -> occurs double_quote (escape_each quotes text) = false).
Proof.
  induction text as [| c text (IHl & IHg & IHq)]; [easy |].
  cbn [escape_each]. rewrite !occurs_app, IHl, IHg.
  destruct (escape_char_cases quotes c)
    as [[-> ->] | [[-> ->] | [[-> ->] | [(-> & -> & ->) | (Ha & Hl & Hg & Hq & ->)]]]];
    try (split; [reflexivity | split; [reflexivity |]];
         intros Hquotes; rewrite (IHq Hquotes); reflexivity).
  cbn [occurs]. rewrite !orb_false_r.
  split; [now apply Ascii.eqb_neq |]. split; [now apply Ascii.eqb_neq |].
  intros Hquotes. rewrite (IHq Hquotes), orb_false_r.
  apply Ascii.eqb_neq. auto.
Qed.

Lemma escape_each_plain quotes text :
  occurs "&" text = false -> occurs "<" text = false ->
  occurs ">" text = false ->
  (quotes = true -> occurs double_quote text = false) ->
  escape_each quotes text = text.
Proof.
  induction text as [| c text IH]; [reflexivity |].
  cbn [occurs]. intros Ha Hl Hg Hq.
  apply orb_false_iff in Ha as [Hca Ha]. apply orb_false_iff in Hl as [Hcl Hl].
  apply orb_false_iff in Hg as [Hcg Hg].
  cbn [escape_each]. rewrite IH; try assumption.
  - unfold escape_char. rewrite Hca, Hcl, Hcg.
    destruct quotes; [| reflexivity].
    specialize (Hq eq_refl). apply orb_false_iff in Hq as [-> _]. reflexivity.
  - intros Hquotes. specialize (Hq Hquotes).
    now apply orb_false_iff in Hq as [_ ?].
Qed.

(** X9 -- Telegram's [escapeHtml], three replacements one after the other,
    is one simultaneous escape of [&], [<] and [>]: no [&] written by a
    later replacement is escaped again.  Its output holds no [<] and no
    [>], and a text without the three characters is left as it is. *)
Theorem telegram_escapeHtml_result text :
  Telegram.escapeHtml text = escape_each false text /\
  occurs "<" (Telegram.escapeHtml text) = false /\
  occurs ">" (Telegram.escapeHtml text) = false /\
  (occurs "&" text = false -> occurs "<" text = false ->
   occurs ">" text = false -> Telegram.escapeHtml text = text).
Proof.
  rewrite telegram_escape_each.
  destruct (escape_each_clean false text) as (Hl & Hg & _).
  split; [reflexivity |]. split; [exact Hl |]. split; [exact Hg |].
  intros Ha Hl' Hg'. apply escape_each_plain; [assumption.. | discriminate].
Qed.

Lemma telegram_escapeHtml_result_witness :
  Telegram.escapeHtml "Campermate Website" = "Campermate Website" /\
  Telegram.escapeHtml "a<b>&c" = "a&lt;b&gt;&amp;c".
Proof.
  split.
  - apply (telegram_escapeHtml_result "Campermate Website"); reflexivity.
  - rewrite (proj1 (telegram_escapeHtml_result "a<b>&c")). reflexivity.
Defined.

(** X10 -- the mail sender's [escapeHtml], four replacements one after the
    other, is one simultaneous escape of [&], [<], [>] and the double
    quote.  Its output holds no [<], no [>] and no double quote, and a
    text without the four characters is left as it is. *)
Theorem email_escapeHtml_result text :
  Email.escapeHtml text = escape_each true text /\
  occurs "<" (Email.escapeHtml text) = false /\
  occurs ">" (Email.escapeHtml text) = false /\
  occurs double_quote (Email.escapeHtml text) = false /\
  (occurs "&" text = false -> occurs "<" text = false ->
   occurs ">" text = false -> occurs double_quote text = false ->
   Email.escapeHtml text = text).
Proof.
  rewrite email_escape_each.
  destruct (escape_each_clean true text) as (Hl & Hg & Hq).
  split; [reflexivity |]. split; [exact Hl |]. split; [exact Hg |].
  split; [now apply Hq |].
  intros Ha Hl' Hg' Hq'. apply escape_each_plain; auto.
Qed.

Lemma email_escapeHtml_result_witness :
  Email.escapeHtml "Response Time" = "Response Time".
Proof.
  apply (email_escapeHtml_result "Response Time"); reflexivity.
Defined.

(** * The history on the dashboard *)

(** X11 -- [padHistory] always returns 288 slots: empty slots first, then
    the last 288 entries of the history in their order; a history of at
    most 288 entries, such as every history the monitor stores, is shown
    whole. *)
Theorem padHistory_slots {A} (history : list A) :
  length (padHistory history) = 288%nat /\
  padHistory history =
    app (repeat None (288 - length history))
        (map Some (slice_last 288 history)) /\
  omap id (padHistory history) = slice_last 288 history /\
  ((length history <= 288)%nat -> omap id (padHistory history) = history).
Proof.
  assert (Hform : padHistory history =
            app (repeat None (288 - length history))
                (map Some (slice_last 288 history))).
  { unfold padHistory, MAX_HISTORY.
    destruct (Nat.leb_spec 288 (length history)) as [Hge | Hlt].
    - replace (288 - length history)%nat with 0%nat by lia. reflexivity.
    - unfold slice_last.
      replace (length history - 288)%nat with 0%nat by lia. reflexivity. }
  assert (Homap : omap id (padHistory history) = slice_last 288 history).
  { rewrite Hform, omap_app.
    assert (Hnone : forall k, omap id (repeat (@None A) k) = []).
    { induction k as [| k IH]; [reflexivity | exact IH]. }
    rewrite Hnone. cbn [app]. clear Hform.
    generalize (slice_last 288 history) as l.
    induction l as [| x l IH]; [reflexivity |].
    cbn. now f_equal. }
  split; [| split; [exact Hform | split; [exact Homap |]]].
  - rewrite Hform, length_app, repeat_length, length_map.
    unfold slice_last. rewrite length_drop. lia.
  - intros Hlen. rewrite Homap. unfold slice_last.
    replace (length history - 288)%nat with 0%nat by lia. reflexivity.
Qed.

Lemma padHistory_slots_witness :
  omap id (padHistory [healthy; degraded; unhealthy]) =
    [healthy; degraded; unhealthy].
Proof.
  apply (padHistory_slots [healthy; degraded; unhealthy]). cbn. lia.
Defined.

(** * What a run leaves untouched *)

Lemma bucket_untouched_refl w : bucket_untouched w w.
Proof. repeat split. Qed.

Lemma bucket_untouched_trans w1 w2 w3 :
  bucket_untouched w1 w2 -> bucket_untouched w2 w3 -> bucket_untouched w1 w3.
Proof.
  intros (H1 & H2 & H3 & H4 & H5) (K1 & K2 & K3 & K4 & K5).
  repeat split; congruence.
Qed.

Lemma bucket_untouched_issues reqs w : bucket_untouched w (issues reqs w).
Proof.
  revert w. induction reqs as [| r reqs IH]; intros w;
    [apply bucket_untouched_refl |].
  change (issues (r :: reqs) w) with (issues reqs (World.issue r w)).
  eapply bucket_untouched_trans; [| apply IH]. repeat split.
Qed.

Lemma bucket_untouched_prints lines w : bucket_untouched w (prints lines w).
Proof.
  revert w. induction lines as [| l lines IH]; intros w;
    [apply bucket_untouched_refl |].
  change (prints (l :: lines) w) with (prints lines (World.print l w)).
  eapply bucket_untouched_trans; [| apply IH]. repeat split.
Qed.

Lemma dispatchAlerts_world alertType check checkState result config env w :
  let payload :=
    {| AlertPayload.type := alertType;
       AlertPayload.check := check;
       AlertPayload.checkState := checkState;
       AlertPayload.result := result;
       AlertPayload.timestamp :=
         Instant.iso (World.clock w (World.clock_reads w)) |} in
  let reqs :=
    omap (channel_request check env payload)
         (MonitoringConfig.channels config) in
  exists lines,
    dispatchAlerts alertType check checkState result config env w
      = (Ok tt, prints lines (issues reqs (World.tick w))) /\
    map level_text lines =
      map (fun r => (error, failure_text r))
          (undelivered (World.net w) (length (World.requests w)) reqs).
Proof.
  intros payload reqs.
  destruct (dispatch_loop check env payload (MonitoringConfig.channels config)
              [] [] (World.tick w)) as (tasks & lines & Hloop & Hlog & Hlines).
  { intros w0. reflexivity. }
  fold reqs in Hloop, Hlines.
  exists lines. split; [| exact Hlines].
  unfold dispatchAlerts. run_monad. fold payload.
  unfold bind in Hloop. rewrite Hloop. apply Hlog.
Qed.

Lemma channel_request_payload check env payload channel req :
  channel_request check env payload channel = Some req ->
  payload_of req = Some payload /\ is_probe req = false /\
  AlertChannel.enabled channel = true /\
  shouldChannelReceive channel check = true.
Proof.
  unfold channel_request.
  destruct (shouldChannelReceive channel check) eqn:Hrecv; [| discriminate].
  assert (Hen : AlertChannel.enabled channel = true).
  { unfold shouldChannelReceive in Hrecv.
    destruct (AlertChannel.enabled channel); [reflexivity | discriminate]. }
  destruct (AlertChannel.type channel); cbn;
    repeat (match goal with
            | |- context [truthy ?x] => destruct (truthy x); cbn
            end);
    try discriminate; intros [= <-]; easy.
Qed.

Lemma channel_requests_payload check env payload channels :
  let reqs := omap (channel_request check env payload) channels in
  Forall (fun req => payload_of req = Some payload /\ is_probe req = false)
         reqs /\
  (length reqs <=
   length (filter (fun c => AlertChannel.enabled c = true) channels))%nat.
Proof.
  induction channels as [| c cs [IHall IHlen]]; [split; [constructor | cbn; lia] |].
  cbv zeta.
  change (omap (channel_request check env payload) (c :: cs))
    with (match channel_request check env payload c with
          | Some r => r :: omap (channel_request check env payload) cs
          | None => omap (channel_request check env payload) cs
          end).
  rewrite filter_cons.
  destruct (channel_request check env payload c) as [req |] eqn:Hreq.
  - apply channel_request_payload in Hreq as (Hp & Hprobe & Hen & _).
    rewrite decide_True by exact Hen.
    split; [constructor; [easy | exact IHall] | cbn [length]; lia].
  - split; [exact IHall |]. destruct (decide _); cbn [length]; lia.
Qed.

(** X12 -- one dispatch never rejects and never touches the bucket; every
    request it issues is an alert request that carries one and the same
    payload: the alert type, the check, the state and the result it was
    given, stamped with the time of the dispatch; it issues at most one
    request per enabled channel. *)
Theorem dispatch_fans_out_one_payload
    alertType check checkState result config env w :
  exists w' reqs,
    dispatchAlerts alertType check checkState result config env w
      = (Ok tt, w') /\
    World.requests w' = app (World.requests w) reqs /\
    Forall (fun req =>
              payload_of req =
                Some {| AlertPayload.type := alertType;
                        AlertPayload.check := check;
                        AlertPayload.checkState := checkState;
                        AlertPayload.result := result;
                        AlertPayload.timestamp :=
                          Instant.iso (World.clock w (World.clock_reads w)) |})
           reqs /\
    (length reqs <=
     length (filter (fun c => AlertChannel.enabled c = true)
                    (MonitoringConfig.channels config)))%nat /\
    bucket_untouched w w'.
Proof.
  set (payload := {| AlertPayload.type := alertType;
                     AlertPayload.check := check;
                     AlertPayload.checkState := checkState;
                     AlertPayload.result := result;
                     AlertPayload.timestamp :=
                       Instant.iso (World.clock w (World.clock_reads w)) |}).
  set (reqs := omap (channel_request check env payload)
                    (MonitoringConfig.channels config)).
  destruct (dispatchAlerts_world alertType check checkState result config env w)
    as (lines & Hrun & _).
  fold payload in Hrun. fold reqs in Hrun.
  exists (prints lines (issues reqs (World.tick w))), reqs.
  split; [exact Hrun |].
  destruct (prints_keeps lines (issues reqs (World.tick w))) as (-> & _).
  rewrite issues_requests. split; [reflexivity |].
  destruct (channel_requests_payload check env payload
              (MonitoringConfig.channels config)) as [Hall Hlen].
  split; [eapply Forall_impl; [exact Hall | now intros req [? _]] |].
  split; [exact Hlen |].
  eapply bucket_untouched_trans; [| apply bucket_untouched_prints].
  eapply bucket_untouched_trans; [| apply bucket_untouched_issues].
  repeat split.
Qed.

Lemma no_receiver_no_request check env payload channels :
  Forall (fun c => shouldChannelReceive c check = false) channels ->
  omap (channel_request check env payload) channels = [].
Proof.
  induction 1 as [| c cs Hc _ IH]; [reflexivity |].
  change (omap (channel_request check env payload) (c :: cs))
    with (match channel_request check env payload c with
          | Some r => r :: omap (channel_request check env payload) cs
          | None => omap (channel_request check env payload) cs
          end).
  unfold channel_request at 1. rewrite Hc. exact IH.
Qed.

(** X13 -- when no channel of the configuration is to receive the check's
    alerts (each is disabled or scoped to other tags), a dispatch reads
    the clock once and does nothing else: no request, no console line. *)
Theorem dispatch_without_receivers
    alertType check checkState result config env w :
  Forall (fun c => shouldChannelReceive c check = false)
         (MonitoringConfig.channels config) ->
  dispatchAlerts alertType check checkState result config env w
    = (Ok tt, World.tick w).
Proof.
  intros Hnone.
  destruct (dispatchAlerts_world alertType check checkState result config env w)
    as (lines & Hrun & Hlines).
  cbv zeta in Hrun, Hlines.
  rewrite (no_receiver_no_request _ _ _ _ Hnone) in Hrun, Hlines.
  cbn in Hlines.
  destruct lines; [exact Hrun | discriminate].
Qed.

Lemma dispatch_without_receivers_witness :
  dispatchAlerts failure (test_check (Some ["staging"]))
    (createEmptyCheckState "test") failureResult
    (MonitoringConfig.mk []
       [AlertChannel.mk slack false None;
        AlertChannel.mk telegram true (Some ["production"])] 2 10000)
    all_bindings (quiet_world flaky_net)
  = (Ok tt, World.tick (quiet_world flaky_net)).
Proof.
  apply dispatch_without_receivers. repeat constructor.
Defined.

(** * The orchestrator, continued *)








(** * Persistence *)

Lemma loadState_run w :
  loadState w =
    match World.r2_get w with
    | R2Missing => (Ok createEmptyState, w)
    | R2Stored state => (Ok state, w)
    | R2GetThrows e => (Ok createEmptyState, World.print (load_failed_line e) w)
    end.
Proof.
  unfold loadState, try_catch, bind, bucket_get.
  destruct (World.r2_get w); reflexivity.
Qed.

(** X15 -- [loadState] never throws: it returns the stored state when the
    bucket holds one and the empty state otherwise; a failing read is
    reported on the console, once, and is then taken for an empty bucket.
    Nothing else changes. *)
Theorem loadState_never_throws w :
  exists state w',
    loadState w = (Ok state, w') /\
    MonitoringState.checks state = loaded_checks w /\
    (forall stored, World.r2_get w = R2Stored stored -> state = stored) /\
    ((forall stored, World.r2_get w <> R2Stored stored) ->
     state = createEmptyState) /\
    (forall e, World.r2_get w = R2GetThrows e ->
     World.console w' = app (World.console w) [load_failed_line e]) /\
    ((forall e, World.r2_get w <> R2GetThrows e) -> w' = w) /\
    World.requests w' = World.requests w /\
    World.clock_reads w' = World.clock_reads w /\
    bucket_untouched w w'.
Proof.
  rewrite loadState_run. unfold loaded_checks.
  destruct (World.r2_get w) as [| stored | e] eqn:Hget;
    eexists; eexists; (split; [reflexivity |]);
    repeat split; try congruence; try discriminate;
    try (intros e' [= <-]; reflexivity);
    intros Hnot; exfalso; eapply Hnot; reflexivity.
Qed.

Lemma loadState_never_throws_witness :
  exists w',
    loadState
      (World.mk flaky_net [] (fun _ => Instant.mk 0 "T") 0 []
         (R2GetThrows (ErrorObj "R2 is down")) None [])
    = (Ok createEmptyState, w') /\
    World.console w' = [load_failed_line (ErrorObj "R2 is down")].
Proof.
  destruct (loadState_never_throws
              (World.mk flaky_net [] (fun _ => Instant.mk 0 "T") 0 []
                 (R2GetThrows (ErrorObj "R2 is down")) None []))
    as (state & w' & Hrun & _ & _ & Hempty & Hline & _).
  exists w'. split.
  - rewrite Hrun. f_equal. f_equal. apply Hempty. intros stored. discriminate.
  - apply (Hline (ErrorObj "R2 is down")). reflexivity.
Defined.








(** * The senders *)

(** X19 -- each sender issues exactly one request; its promise is
    fulfilled exactly when the answer is a 2xx response; on any other
    response it is rejected with an [Error] that names the API and the
    status (and, for Telegram and the mail API, the body), and a rejected
    fetch is passed on as it is.  Settling the promise leaves the world as
    it is. *)
Theorem senders_settle (alert : AlertPayload.t) w :
  let settled (label : string) (with_body : bool) (p : Promise unit) :=
    forall w0,
      match next_outcome w with
      | Responded status body =>
          if Response.ok (Response.mk status body) then p w0 = (Ok tt, w0)
          else p w0 =
                 (Throw (ErrorObj (if with_body
                                   then label ++ show status ++ " " ++ body
                                   else label ++ show status)),
                  w0)
      | Aborted m => p w0 = (Throw (ErrorObj m), w0)
      | Failed e => p w0 = (Throw e, w0)
      end in
  (forall webhookUrl, exists p,
     sendSlackAlert webhookUrl alert w =
       (Ok p, World.issue (SlackPOST webhookUrl alert) w) /\
     settled "Slack webhook failed: " false p) /\
  (forall botToken chatId, exists p,
     sendTelegramAlert botToken chatId alert w =
       (Ok p, World.issue (TelegramPOST botToken chatId alert) w) /\
     settled "Telegram API failed: " true p) /\
  (forall apiKey from to, exists p,
     sendEmailAlert apiKey from to alert w =
       (Ok p, World.issue (EmailPOST apiKey from to alert) w) /\
     settled "Resend API failed: " true p).
Proof.
  intros settled. subst settled. unfold next_outcome.
  split; [| split]; intros; eexists; (split; [reflexivity |]); intros w0;
    run_monad;
    destruct (World.net w (length (World.requests w))) as [st b | m | e];
    cbn; try reflexivity;
    unfold Response.ok; cbn; destruct (_ && _); reflexivity.
Qed.

(** * The public status route *)





(** * The two resolvers *)

(** X21 -- the [resolveUrl] callback of monitor.ts and [resolveCheckUrl]
    resolve every URL alike, except for an empty worker URL: the callback
    falls back to localhost only when the binding is missing, and
    [resolveCheckUrl] also when it is empty. *)
Theorem resolvers_agree url workerUrl :
  workerUrl <> Some EmptyString ->
  monitor_resolveUrl url workerUrl = resolveCheckUrl url workerUrl.
Proof.
  intros Hne. unfold monitor_resolveUrl, resolveCheckUrl.
  destruct workerUrl as [[| c s] |]; [congruence | reflexivity | reflexivity].
Qed.

Lemma resolvers_agree_witness :
  monitor_resolveUrl "{{WORKER_URL}}/sandbox-health" None =
    "http://localhost:8787/sandbox-health".
Proof.
  rewrite (resolvers_agree "{{WORKER_URL}}/sandbox-health" None);
    [reflexivity | discriminate].
Defined.

(** With an empty worker URL the callback leaves a relative URL where
    [resolveCheckUrl] points to localhost. *)
Example resolvers_differ_on_empty :
  monitor_resolveUrl "{{WORKER_URL}}/sandbox-health" (Some "") =
    "/sandbox-health" /\
  resolveCheckUrl "{{WORKER_URL}}/sandbox-health" (Some "") =
    "http://localhost:8787/sandbox-health".
Proof. split; reflexivity. Qed.
